(** * Realtime recruiter assistant: transcript session, workflow and citations

  A shallow embedding of the frontend core of the recruiter assistant:

  - [Realtime]: the class [OpenAIRealtimeWebRTCService]
    (services/openaiRealtimeWebRTCService.ts): session mint, WebRTC
    negotiation, the data-channel message handler and the transcript
    accumulator, and [disconnect];
  - [Workflow]: the step derivation and [executeAction] of [App] (App.tsx);
  - [Citations]: the citation filter rendered by [RagPanel]
    (components/panels/RagPanel.tsx);
  - [Opening]: [createWebRTCConnection] cut at its first [await];
  - [Recorder]: the component [RealtimeInterviewRecorder]
    (components/RealtimeInterviewRecorder.tsx) and its word count;
  - [StepBar], [Buttons], [Rag], [Persist]: the step bar, the action-button
    editor, [handleRagAsk] and [persistFinalUtterance] of [App], with the
    panels that guard them;
  - [Welcome]: the greeting of [WelcomePanel].

  JavaScript strings are modelled by [string]; a character stands for one
  UTF-16 code unit below 256.  Browser objects (peer connection, data
  channel, media tracks) are handles; what the browser and the network
  answer is given by an environment record, and every call the code makes
  on them is appended to a log. *)

From Stdlib Require Import ZArith String Ascii List Bool Lia Sorted.
From stdpp Require Import base tactics option list strings pretty gmap sets.

Local Open Scope Z_scope.

(** ** JavaScript string helpers *)

Module Js.

(** [Boolean(s)] for a string: only the empty string is falsy. *)
Definition truthy (s : string) : bool :=
  match s with
  | EmptyString => false
  | String _ _ => true
  end.

(** [a || b] on two properties that may be absent: the first one that is a
    non-empty string. *)
Definition or_opt (a b : option string) : option string :=
  match a with
  | Some s => if truthy s then a else b
  | None => b
  end.

(** [o || lit] where [lit] is a string literal. *)
Definition or_lit (o : option string) (lit : string) : string :=
  match o with
  | Some s => if truthy s then s else lit
  | None => lit
  end.

(** [a === b] between a possibly absent property and a string literal. *)
Definition strict_eq (o : option string) (lit : string) : bool :=
  match o with
  | Some s => String.eqb s lit
  | None => false
  end.

(** WhiteSpace and LineTerminator code units below 256: TAB, LF, VT, FF,
    CR, SPACE and NBSP. *)
Definition isWhiteSpace (c : ascii) : bool :=
  let n := nat_of_ascii c in
  ((9 <=? n)%nat && (n <=? 13)%nat) || (n =? 32)%nat || (n =? 160)%nat.

Fixpoint trimStart (s : string) : string :=
  match s with
  | EmptyString => EmptyString
  | String c rest => if isWhiteSpace c then trimStart rest else s
  end.

(** The string without its trailing white space. *)
Fixpoint trimEnd (s : string) : string :=
  match s with
  | EmptyString => EmptyString
  | String c rest =>
      match trimEnd rest with
      | EmptyString => if isWhiteSpace c then EmptyString else String c EmptyString
      | kept => String c kept
      end
  end.

(** [s.trim()]. *)
Definition trim (s : string) : string := trimEnd (trimStart s).

(** [Array.prototype.join] with a separator. *)
Fixpoint join (sep : string) (parts : list string) : string :=
  match parts with
  | [] => EmptyString
  | [p] => p
  | p :: rest => p +:+ sep +:+ join sep rest
  end.

(** The line feed of the template literal in [handleMessage]. *)
Definition LF : string := String (ascii_of_nat 10) EmptyString.

End Js.

(** ** The realtime transcription service

  [OpenAIRealtimeWebRTCService] of services/openaiRealtimeWebRTCService.ts. *)

Module Realtime.

(** The callbacks of [RealtimeCallbacks]; a call is recorded with its
    arguments. *)
Inductive Emission : Type :=
| OnTranscript (text : string) (isFinal : bool)
| OnFinalUtterance (utterance : string)
| OnError (message : string)
| OnConnect
| OnDisconnect.

(** Browser objects are identified by the handle they got at creation. *)
Definition Handle : Type := nat.

Inductive Resource : Type :=
| Transport (pc : Handle)
| Channel (dc : Handle)
| Track (track : Handle).

#[global] Instance Resource_eq_dec : EqDecision Resource.
Proof. solve_decision. Defined.

(** Everything the service does to the outside, in program order. *)
Inductive Effect : Type :=
| Callback (e : Emission)
| FetchSession (sessionId : string) (language model : option string)
| NewPeerConnection (pc : Handle)
| CreateDataChannel (pc dc : Handle)
| GetUserMedia (tracks : list Handle)
| AddTrack (pc track : Handle)
| CreateOffer (pc : Handle)
| SetLocalDescription (pc : Handle)
| PostSdp (url sdp : string) (withBetaHeader : bool)
| SetRemoteDescription (pc : Handle) (sdp : string)
| CloseChannel (dc : Handle)
| CloseTransport (pc : Handle)
| StopTrack (track : Handle)
| TextDecode (bytes : list Byte.byte)
| JsonParse (text : string).

(** The fields of the class.  [micStream] holds the tracks of the
    acquired stream. *)
Record Service : Type := mkService {
  sessionId : string;
  language : option string;
  model : option string;
  peerConnection : option Handle;
  dataChannel : option Handle;
  micStream : option (list Handle);
  clientToken : option string;
  webrtcSdpUrl : option string;
  finalText : string;
  partialText : string
}.

(** [new OpenAIRealtimeWebRTCService(sessionId, callbacks, settings)]:
    [language] defaults to ['en']. *)
Definition new_service (sid : string) (lang mdl : option string) : Service :=
  mkService sid (Some (default "en"%string lang)) mdl
            None None None None None EmptyString EmptyString.

Definition set_peerConnection (v : option Handle) (s : Service) : Service :=
  mkService (sessionId s) (language s) (model s) v (dataChannel s)
            (micStream s) (clientToken s) (webrtcSdpUrl s) (finalText s) (partialText s).
Definition set_dataChannel (v : option Handle) (s : Service) : Service :=
  mkService (sessionId s) (language s) (model s) (peerConnection s) v
            (micStream s) (clientToken s) (webrtcSdpUrl s) (finalText s) (partialText s).
Definition set_micStream (v : option (list Handle)) (s : Service) : Service :=
  mkService (sessionId s) (language s) (model s) (peerConnection s) (dataChannel s)
            v (clientToken s) (webrtcSdpUrl s) (finalText s) (partialText s).
Definition set_clientToken (v : option string) (s : Service) : Service :=
  mkService (sessionId s) (language s) (model s) (peerConnection s) (dataChannel s)
            (micStream s) v (webrtcSdpUrl s) (finalText s) (partialText s).
Definition set_webrtcSdpUrl (v : option string) (s : Service) : Service :=
  mkService (sessionId s) (language s) (model s) (peerConnection s) (dataChannel s)
            (micStream s) (clientToken s) v (finalText s) (partialText s).
Definition set_finalText (v : string) (s : Service) : Service :=
  mkService (sessionId s) (language s) (model s) (peerConnection s) (dataChannel s)
            (micStream s) (clientToken s) (webrtcSdpUrl s) v (partialText s).
Definition set_partialText (v : string) (s : Service) : Service :=
  mkService (sessionId s) (language s) (model s) (peerConnection s) (dataChannel s)
            (micStream s) (clientToken s) (webrtcSdpUrl s) (finalText s) v.

(** The browser side: the next free handle and the log of effects. *)
Record World : Type := mkWorld {
  nextHandle : Handle;
  log : list Effect
}.

Definition empty_world : World := mkWorld 0%nat [].

(** *** What the browser and the network answer *)

Inductive HttpResult : Type :=
| NetworkError (message : string)
| HttpResponse (ok : bool) (status : string) (body : string).

(** [RealtimeSessionResponse], the fields the service reads. *)
Record RealtimeSessionResponse : Type := {
  client_token : option string;
  webrtc_sdp_url : option string
}.

(** A decoded data-channel frame, seen through the properties
    [handleMessage] reads.  The channel's event shape types them as
    strings; a property that is missing, or a decoded value that is not an
    object, reads as [None]. *)
Record Message : Type := mkMessage {
  type : option string;
  delta : option string;
  text : option string;
  transcript : option string
}.

(** A rejected promise or a thrown exception is [inl message]. *)
Record Env : Type := {
  (** [fetch] of the session endpoint, and [response.json()] of a body. *)
  sessionFetch : HttpResult;
  sessionJson : string -> string + RealtimeSessionResponse;
  (** [getUserMedia({audio: true})]: how many audio tracks the stream has. *)
  getUserMedia : string + nat;
  (** [createOffer()]: the offer's [sdp] property. *)
  createOffer : string + option string;
  setLocalDescription : string + unit;
  (** [fetch] of the negotiation endpoint: the requests sent before this
      one, then url, body and whether the beta header is present. *)
  sdpFetch : nat -> string -> string -> bool -> HttpResult;
  setRemoteDescription : string -> string + unit;
  (** [new TextDecoder().decode] and [JSON.parse]. *)
  textDecode : list Byte.byte -> string;
  JSON_parse : string -> string + Message
}.

(** *** Exceptions over mutable state *)

Inductive Outcome (A : Type) : Type :=
| Returned (a : A)
| Threw (message : string).
Arguments Returned {A} a.
Arguments Threw {A} message.

(** A method body: it reads and writes the fields and the world, and
    returns or throws; writes made before a throw stay. *)
Definition M (A : Type) : Type := Service -> World -> Outcome A * Service * World.

#[global] Instance M_ret : MRet M := fun A a s w => (Returned a, s, w).

#[global] Instance M_bind : MBind M := fun A B k m s w =>
  match m s w with
  | (Returned a, s', w') => k a s' w'
  | (Threw e, s', w') => (Threw e, s', w')
  end.

Definition throw {A : Type} (message : string) : M A :=
  fun s w => (Threw message, s, w).

Definition this : M Service := fun s w => (Returned s, s, w).

Definition assign (f : Service -> Service) : M unit :=
  fun s w => (Returned tt, f s, w).

Definition effect (e : Effect) : M unit :=
  fun s w => (Returned tt, s, mkWorld (nextHandle w) (log w ++ [e])).

Definition fresh : M Handle :=
  fun s w => (Returned (nextHandle w), s, mkWorld (S (nextHandle w)) (log w)).

Definition past : M (list Effect) := fun s w => (Returned (log w), s, w).

(** [await p] for a promise that resolves or rejects. *)
Definition await {A : Type} (p : string + A) : M A :=
  match p with
  | inl e => throw e
  | inr a => mret a
  end.

(** [try { body } catch (err) { handler(err) }]. *)
Definition try_catch {A : Type} (body : M A) (handler : string -> M A) : M A :=
  fun s w =>
    match body s w with
    | (Returned a, s', w') => (Returned a, s', w')
    | (Threw e, s', w') => handler e s' w'
    end.

(** [try { body } finally { cleanup }]: the cleanup runs either way and the
    body's outcome stands unless the cleanup throws. *)
Definition try_finally {A : Type} (body : M A) (cleanup : M unit) : M A :=
  fun s w =>
    match body s w with
    | (r, s', w') =>
        match cleanup s' w' with
        | (Returned _, s'', w'') => (r, s'', w'')
        | (Threw e, s'', w'') => (Threw e, s'', w'')
        end
    end.

(** [list.forEach(f)]. *)
Fixpoint forEach {A : Type} (f : A -> M unit) (l : list A) : M unit :=
  match l with
  | [] => mret tt
  | x :: rest => _ ← f x; forEach f rest
  end.

(** [obj?.method()] on a field that may be [null]. *)
Definition optionally {A : Type} (o : option A) (f : A -> M unit) : M unit :=
  match o with
  | Some a => f a
  | None => mret tt
  end.

Definition callback (e : Emission) : M unit := effect (Callback e).

(** *** The transcript accumulator: [handleMessage] *)

Definition isDeltaType (t : option string) : bool :=
  Js.strict_eq t "conversation.item.input_audio_transcription.delta"
  || Js.strict_eq t "input_audio_transcription.delta"
  || Js.strict_eq t "audio.input.transcription.delta"
  || Js.strict_eq t "transcription.delta".

Definition isCompletedType (t : option string) : bool :=
  Js.strict_eq t "conversation.item.input_audio_transcription.completed"
  || Js.strict_eq t "input_audio_transcription.completed"
  || Js.strict_eq t "audio.input.transcription.completed"
  || Js.strict_eq t "transcription.completed".

(** [message?.delta || message?.text || ''] *)
Definition deltaOf (message : Message) : string :=
  Js.or_lit (Js.or_opt (delta message) (text message)) "".

(** [message?.transcript || message?.text || ''] *)
Definition transcriptOf (message : Message) : string :=
  Js.or_lit (Js.or_opt (transcript message) (text message)) "".

(** [this.finalText ? `${this.finalText}\n${transcript}` : transcript] *)
Definition appendUtterance (final utterance : string) : string :=
  if Js.truthy final then final +:+ Js.LF +:+ utterance else utterance.

Definition handleMessage (message : Message) : M unit :=
  let type := type message in
  if isDeltaType type then
    let delta := deltaOf message in
    if negb (Js.truthy delta) then mret tt
    else
      _ ← assign (fun s => set_partialText (partialText s +:+ delta) s);
      s ← this;
      callback (OnTranscript (finalText s +:+ partialText s) false)
  else if isCompletedType type then
    let transcript := transcriptOf message in
    if negb (Js.truthy transcript) then mret tt
    else
      _ ← assign (fun s => set_finalText (appendUtterance (finalText s) transcript) s);
      _ ← assign (set_partialText "");
      _ ← callback (OnFinalUtterance transcript);
      s ← this;
      callback (OnTranscript (finalText s) true)
  else mret tt.

(** The transcript event a decoded message carries, if any: the guards
    [handleMessage] passes before it touches the accumulator. *)
Inductive TranscriptEvent : Type :=
| PartialDelta (text : string)
| FinalUtterance (text : string).

Definition eventOf (message : Message) : option TranscriptEvent :=
  if isDeltaType (type message) then
    if Js.truthy (deltaOf message) then Some (PartialDelta (deltaOf message)) else None
  else if isCompletedType (type message) then
    if Js.truthy (transcriptOf message) then Some (FinalUtterance (transcriptOf message))
    else None
  else None.

(** *** The frame handler: [dataChannel.onmessage]

    The channel's [binaryType] is ['arraybuffer'], so a frame's data is a
    string or an [ArrayBuffer]. *)

Inductive Frame : Type :=
| TextFrame (data : string)
| BinaryFrame (data : list Byte.byte).

Definition jsonParse (env : Env) (text : string) : M Message :=
  _ ← effect (JsonParse text);
  await (JSON_parse env text).

Definition decode (env : Env) (bytes : list Byte.byte) : M string :=
  _ ← effect (TextDecode bytes);
  mret (textDecode env bytes).

Definition onmessage (env : Env) (raw : Frame) : M unit :=
  try_catch
    (match raw with
     | TextFrame data =>
         message ← jsonParse env data;
         handleMessage message
     | BinaryFrame data =>
         text ← decode env data;
         message ← jsonParse env text;
         handleMessage message
     end)
    (fun _ => mret tt).

(** The text a frame hands to [JSON.parse]. *)
Definition frameText (env : Env) (raw : Frame) : string :=
  match raw with
  | TextFrame data => data
  | BinaryFrame data => textDecode env data
  end.

(** Frames that carry no transcript event: text that is not JSON, a type
    outside both alias lists, a delta event without a non-empty [delta] or
    [text], a completion event without a non-empty [transcript] or
    [text]. *)
Definition noise (env : Env) (raw : Frame) : Prop :=
  match JSON_parse env (frameText env raw) with
  | inl _ => True
  | inr message =>
      (isDeltaType (type message) = false /\ isCompletedType (type message) = false)
      \/ (isDeltaType (type message) = true /\ deltaOf message = EmptyString)
      \/ (isCompletedType (type message) = true /\ transcriptOf message = EmptyString)
  end.

(** Frames handled one at a time, in arrival order. *)
Definition onmessages (env : Env) (frames : list Frame) : M unit :=
  forEach (onmessage env) frames.

(** Decoded messages handled one at a time, in arrival order. *)
Definition handleMessages (messages : list Message) : M unit :=
  forEach handleMessage messages.

(** *** [disconnect]

    [close()] of a data channel or of a peer connection and [stop()] of a
    track do not throw; the [try] has a [finally] and no [catch]. *)

Definition disconnect : M unit :=
  try_finally
    (s ← this;
     _ ← optionally (dataChannel s) (fun dc => effect (CloseChannel dc));
     s ← this;
     _ ← optionally (peerConnection s) (fun pc => effect (CloseTransport pc));
     s ← this;
     optionally (micStream s) (forEach (fun t => effect (StopTrack t))))
    (_ ← assign (set_dataChannel None);
     _ ← assign (set_peerConnection None);
     _ ← assign (set_micStream None);
     callback OnDisconnect).

(** *** [connect]: session mint and negotiation *)

Definition createRealtimeSession (env : Env) : M unit :=
  s ← this;
  _ ← effect (FetchSession (sessionId s) (language s) (model s));
  match sessionFetch env with
  | NetworkError e => throw e
  | HttpResponse ok status body =>
      if negb ok then
        throw ("Realtime session error: " +:+ status +:+ " " +:+ body)
      else
        data ← await (sessionJson env body);
        _ ← assign (set_clientToken (client_token data));
        assign (set_webrtcSdpUrl (Js.or_opt (webrtc_sdp_url data) None))
  end.

Definition isPostSdp (e : Effect) : bool :=
  match e with
  | PostSdp _ _ _ => true
  | _ => false
  end.

(** The negotiation requests of a log, in order. *)
Definition posts (l : list Effect) : list Effect := List.filter isPostSdp l.

Definition postSdp (env : Env) (url sdp : string) (withBetaHeader : bool) : M string :=
  sent ← past;
  _ ← effect (PostSdp url sdp withBetaHeader);
  match sdpFetch env (length (posts sent)) url sdp withBetaHeader with
  | NetworkError e => throw e
  | HttpResponse ok _ body => if negb ok then mret EmptyString else mret body
  end.

(** [n] new objects. *)
Fixpoint freshN (n : nat) : M (list Handle) :=
  match n with
  | O => mret []
  | S k => h ← fresh; rest ← freshN k; mret (h :: rest)
  end.

(** [this.field.method()] on a field that must not be [null]. *)
Definition deref {A : Type} (o : option A) : M A :=
  match o with
  | Some a => mret a
  | None => throw "Cannot read properties of null"
  end.

Definition defaultSdpUrl : string := "https://api.openai.com/v1/realtime/calls".

(** The handlers set on the data channel run later, when the browser fires
    the event: [onmessage] is modelled above, [onopen] and [onclose] only
    call [onConnect] and [onDisconnect]. *)

Definition createWebRTCConnection (env : Env) : M unit :=
  s ← this;
  if negb (Js.truthy (Js.or_lit (clientToken s) "")) then
    throw "Missing realtime client token"
  else
    pc ← fresh;
    _ ← effect (NewPeerConnection pc);
    _ ← assign (set_peerConnection (Some pc));
    dc ← fresh;
    _ ← effect (CreateDataChannel pc dc);
    _ ← assign (set_dataChannel (Some dc));
    n ← await (getUserMedia env);
    tracks ← freshN n;
    _ ← effect (GetUserMedia tracks);
    _ ← assign (set_micStream (Some tracks));
    _ ← forEach (fun track =>
                   s ← this;
                   optionally (peerConnection s) (fun pc => effect (AddTrack pc track)))
                tracks;
    s ← this;
    pc ← deref (peerConnection s);
    _ ← effect (CreateOffer pc);
    offer ← await (createOffer env);
    s ← this;
    pc ← deref (peerConnection s);
    _ ← effect (SetLocalDescription pc);
    _ ← await (setLocalDescription env);
    s ← this;
    let sdpUrl := Js.or_lit (webrtcSdpUrl s) defaultSdpUrl in
    answerSdp ← postSdp env sdpUrl (Js.or_lit offer "") false;
    answerSdp ← (if negb (Js.truthy answerSdp) then
                   postSdp env sdpUrl (Js.or_lit offer "") true
                 else mret answerSdp);
    s ← this;
    pc ← deref (peerConnection s);
    _ ← effect (SetRemoteDescription pc answerSdp);
    await (setRemoteDescription env answerSdp).

Definition connect (env : Env) : M unit :=
  try_catch
    (_ ← createRealtimeSession env;
     createWebRTCConnection env)
    (fun err =>
       _ ← callback (OnError (Js.or_lit (Some err) "Failed to connect to realtime"));
       throw err).

(** *** Reading a log *)

Definition acquires (e : Effect) : list Resource :=
  match e with
  | NewPeerConnection pc => [Transport pc]
  | CreateDataChannel _ dc => [Channel dc]
  | GetUserMedia tracks => Track <$> tracks
  | _ => []
  end.

Definition releases (e : Effect) : list Resource :=
  match e with
  | CloseChannel dc => [Channel dc]
  | CloseTransport pc => [Transport pc]
  | StopTrack track => [Track track]
  | _ => []
  end.

Definition account (held : list Resource) (e : Effect) : list Resource :=
  filter (fun r => r ∉ releases e) (held ++ acquires e).

(** The resources a log has acquired and not released: open transports,
    open channels and running tracks. *)
Definition live (l : list Effect) : list Resource := fold_left account l [].

(** The resources the fields of the service refer to. *)
Definition held (s : Service) : list Resource :=
  option_list (Transport <$> peerConnection s)
  ++ option_list (Channel <$> dataChannel s)
  ++ (Track <$> default [] (micStream s)).

Definition isStopTrack (e : Effect) : bool :=
  match e with StopTrack _ => true | _ => false end.
Definition isCloseChannel (e : Effect) : bool :=
  match e with CloseChannel _ => true | _ => false end.
Definition isCloseTransport (e : Effect) : bool :=
  match e with CloseTransport _ => true | _ => false end.

(** Every [first] effect of the log comes before every [second] one. *)
Fixpoint allBefore (first second : Effect -> bool) (l : list Effect) : bool :=
  match l with
  | [] => true
  | e :: rest =>
      (if second e then forallb (fun e' => negb (first e')) rest else true)
      && allBefore first second rest
  end.

(** The teardown order of the specification: track stops, then the
    channel close, then the transport close. *)
Definition stopsThenChannelThenTransport (l : list Effect) : bool :=
  allBefore isStopTrack isCloseChannel l
  && allBefore isCloseChannel isCloseTransport l
  && allBefore isStopTrack isCloseTransport l.

(** The order of [disconnect]: the channel close, then the transport close,
    then the track stops. *)
Definition channelThenTransportThenStops (l : list Effect) : bool :=
  allBefore isCloseChannel isCloseTransport l
  && allBefore isCloseTransport isStopTrack l
  && allBefore isCloseChannel isStopTrack l.

(** The releases [disconnect] makes for the fields of [s]. *)
Definition teardown (s : Service) : list Effect :=
  option_list (CloseChannel <$> dataChannel s)
  ++ option_list (CloseTransport <$> peerConnection s)
  ++ (StopTrack <$> default [] (micStream s)).

(** The fields after [disconnect]. *)
Definition cleared (s : Service) : Service :=
  set_micStream None (set_peerConnection None (set_dataChannel None s)).

(** What a method appended to the log of [w]. *)
Definition since (w w' : World) : list Effect := drop (length (log w)) (log w').

(** A negotiation answer that counts as a rejection: a status that is not
    ok, or an empty body. *)
Definition refused (r : HttpResult) : bool :=
  match r with
  | NetworkError _ => false
  | HttpResponse ok _ body => negb ok || negb (Js.truthy body)
  end.

(** What the [forEach] over the tracks of the stream logs for one track. *)
Definition addTracks (s : Service) (track : Handle) : list Effect :=
  match peerConnection s with
  | Some pc => [AddTrack pc track]
  | None => []
  end.

(** The callbacks of a log, in order. *)
Definition emissions (l : list Effect) : list Emission :=
  omap (fun e => match e with Callback c => Some c | _ => None end) l.

(** The utterances notified through [onFinalUtterance], in order. *)
Definition utterances (l : list Effect) : list string :=
  omap (fun e => match e with Callback (OnFinalUtterance u) => Some u | _ => None end) l.

(** The transcripts emitted through [onTranscript] with [isFinal] set, in
    order. *)
Definition finalTranscripts (l : list Effect) : list string :=
  omap (fun e => match e with Callback (OnTranscript t true) => Some t | _ => None end) l.

(** The accumulator agrees with what it has notified so far. *)
Definition in_step (s : Service) (w : World) : Prop :=
  finalText s = Js.join Js.LF (utterances (log w))
  /\ Forall (fun u => u <> "") (utterances (log w))
  /\ last (finalTranscripts (log w))
     = if decide (utterances (log w) = []) then None else Some (finalText s).

(** The utterance a message finalizes, if it carries a completion event. *)
Definition finalUtteranceOf (message : Message) : option string :=
  match eventOf message with
  | Some (FinalUtterance t) => Some t
  | _ => None
  end.

(** How many times [JSON.parse] was called. *)
Definition jsonParses (l : list Effect) : nat :=
  length (List.filter (fun e => match e with JsonParse _ => true | _ => false end) l).

End Realtime.

(** ** The interview workflow of [App] (App.tsx) *)

Module Workflow.

Inductive SessionStep : Type := setup | record | finalize.

Record SessionDocument : Type := {
  doc_type : string;
  file_name : string
}.

Record InterviewSession : Type := {
  session_id : Z;
  documents : option (list SessionDocument)
}.

Record ActionButton : Type := {
  button_id : string;
  label : string;
  prompt : string
}.

(** The state hooks of [App] that the step derivation and the action
    invoker read or write.  [resetTimers] holds, for every pending
    [window.setTimeout] of [executeAction], the time before which it cannot
    fire. *)
Record App : Type := mkApp {
  currentUser : option string;
  session : option InterviewSession;
  diarizedTranscript : string;
  realtimeTranscript : string;
  activeStep : SessionStep;
  actionLoading : bool;
  actionOutput : string;
  actionError : option string;
  actionCooldownUntil : Z;
  resetTimers : list Z
}.

Definition setActiveStep (v : SessionStep) (a : App) : App :=
  mkApp (currentUser a) (session a) (diarizedTranscript a) (realtimeTranscript a)
        v (actionLoading a) (actionOutput a) (actionError a)
        (actionCooldownUntil a) (resetTimers a).
Definition setActionLoading (v : bool) (a : App) : App :=
  mkApp (currentUser a) (session a) (diarizedTranscript a) (realtimeTranscript a)
        (activeStep a) v (actionOutput a) (actionError a)
        (actionCooldownUntil a) (resetTimers a).
Definition setActionOutput (v : string) (a : App) : App :=
  mkApp (currentUser a) (session a) (diarizedTranscript a) (realtimeTranscript a)
        (activeStep a) (actionLoading a) v (actionError a)
        (actionCooldownUntil a) (resetTimers a).
Definition setActionError (v : option string) (a : App) : App :=
  mkApp (currentUser a) (session a) (diarizedTranscript a) (realtimeTranscript a)
        (activeStep a) (actionLoading a) (actionOutput a) v
        (actionCooldownUntil a) (resetTimers a).
Definition setActionCooldownUntil (v : Z) (a : App) : App :=
  mkApp (currentUser a) (session a) (diarizedTranscript a) (realtimeTranscript a)
        (activeStep a) (actionLoading a) (actionOutput a) (actionError a)
        v (resetTimers a).
Definition setResetTimers (v : list Z) (a : App) : App :=
  mkApp (currentUser a) (session a) (diarizedTranscript a) (realtimeTranscript a)
        (activeStep a) (actionLoading a) (actionOutput a) (actionError a)
        (actionCooldownUntil a) v.

(** *** Auto-advance step *)

Definition hasSetup (a : App) : bool :=
  bool_decide (is_Some (currentUser a)) && bool_decide (is_Some (session a)).

(** [session?.documents || []] *)
Definition sessionDocs (a : App) : list SessionDocument :=
  match session a with
  | Some s => default [] (documents s)
  | None => []
  end.

Definition hasJD (a : App) : bool :=
  existsb (fun d => String.eqb (doc_type d) "JD") (sessionDocs a).
Definition hasCV (a : App) : bool :=
  existsb (fun d => String.eqb (doc_type d) "CV") (sessionDocs a).
Definition hasDocsReady (a : App) : bool := hasSetup a && hasJD a && hasCV a.
Definition hasRecordingData (a : App) : bool :=
  Js.truthy (Js.trim (realtimeTranscript a)).
Definition hasFinalized (a : App) : bool :=
  Js.truthy (Js.trim (diarizedTranscript a)).

(** The effect on [hasFinalized, hasRecordingData, hasDocsReady]. *)
Definition autoAdvance (a : App) : App :=
  if hasFinalized a then setActiveStep finalize a
  else if hasRecordingData a then setActiveStep record a
  else if hasDocsReady a then setActiveStep record a
  else setActiveStep setup a.

(** *** [executeAction] *)

Definition ACTION_COOLDOWN_MS : Z := 2000.

(** The body of the request to the action endpoint. *)
Record ActionRequest : Type := {
  request_session : Z;
  action_button : ActionButton;
  client_transcript : string
}.

(** How the backend answers: [data.output], or a rejection with
    [err.response?.data?.detail]. *)
Inductive ActionReply : Type :=
| ReplyOutput (output : option string)
| ReplyFailure (detail : option string).

(** Where the synchronous part of [executeAction] stops: one of its three
    early [return]s, or the [await] of the request. *)
Inductive Exit : Type :=
| NoSession
| EmptyTranscript
| Cooldown
| Awaiting (request : ActionRequest).

(** [executeAction] up to its [await].  The function is a closure of the
    render that created it: [session], [realtimeTranscript] and
    [actionCooldownUntil] are the constants of that render, [rendered],
    while the setters write the hooks as they are when the call runs, [a].
    [now] is what [Date.now()] returns at the cooldown check and [now'] what
    it returns when the deadline is computed. *)
Definition executeAction_of (rendered : App) (now now' : Z) (button : ActionButton)
    (a : App) : App * Exit :=
  match session rendered with
  | None => (a, NoSession)
  | Some s =>
      if negb (Js.truthy (Js.trim (realtimeTranscript rendered))) then
        (setActionError (Some "Transcript is empty."%string) a, EmptyTranscript)
      else if now <? actionCooldownUntil rendered then
        (setActionError (Some "Cooling down."%string) a, Cooldown)
      else
        let a1 := setActionLoading true a in
        let a2 := setActionError None a1 in
        let expiresAt := now' + ACTION_COOLDOWN_MS in
        let a3 := setActionCooldownUntil expiresAt a2 in
        let a4 := setResetTimers (resetTimers a3 ++ [now' + ACTION_COOLDOWN_MS]) a3 in
        (a4, Awaiting {| request_session := session_id s;
                         action_button := button;
                         client_transcript := realtimeTranscript rendered |})
  end.

(** A call through the handler of the latest render: what it reads is what
    the hooks hold.  This is a click on a button of the panel, which React
    has rendered again after the last change of the hooks. *)
Definition executeAction_begin (now now' : Z) (button : ActionButton) (a : App)
  : App * Exit :=
  executeAction_of a now now' button a.

(** [executeAction] after its [await]: the [try] tail, [catch] and
    [finally]. *)
Definition executeAction_settle (reply : ActionReply) (a : App) : App :=
  let a1 :=
    match reply with
    | ReplyOutput output => setActionOutput (Js.or_lit output "") a
    | ReplyFailure detail => setActionError (Some (Js.or_lit detail "Action failed")) a
    end in
  setActionLoading false a1.

(** One whole call through the handler of the latest render, when nothing
    else runs before the request settles. *)
Definition executeAction (now now' : Z) (button : ActionButton)
    (reply : ActionReply) (a : App) : App * Exit :=
  match executeAction_begin now now' button a with
  | (a', Awaiting request) => (executeAction_settle reply a', Awaiting request)
  | stopped => stopped
  end.

(** The state an accepted call is in while its request is pending. *)
Definition pending (now' : Z) (a : App) : App :=
  setResetTimers (resetTimers a ++ [now' + ACTION_COOLDOWN_MS])
    (setActionCooldownUntil (now' + ACTION_COOLDOWN_MS)
       (setActionError None (setActionLoading true a))).

(** The callback of a reset timer: [setActionCooldownUntil(0)].  The
    [i]-th pending timer may fire at [now] once its delay has passed; no
    timer is ever cleared. *)
Definition resetTimerFires (i : nat) (now : Z) (a : App) : option App :=
  match resetTimers a !! i with
  | Some due =>
      if due <=? now then
        Some (setResetTimers (delete i (resetTimers a)) (setActionCooldownUntil 0 a))
      else None
  | None => None
  end.



(** *** The stage as the specification derives it

    The three facts in words of their own, to be compared with the
    booleans of [App]. *)

(** The text has a character that is not white space. *)
Definition nonBlank (text : string) : Prop :=
  exists pre c post, text = pre +:+ String c post /\ Js.isWhiteSpace c = false.

(** A user is signed in and the open session holds at least one JD document
    and at least one CV document. *)
Definition documentsComplete (a : App) : Prop :=
  is_Some (currentUser a)
  /\ exists s docs,
      session a = Some s
      /\ documents s = Some docs
      /\ (exists d, d ∈ docs /\ doc_type d = "JD"%string)
      /\ (exists d, d ∈ docs /\ doc_type d = "CV"%string).

(** The stage derived from the three facts. *)
Inductive derivedStage (a : App) : SessionStep -> Prop :=
| stage_finalize :
    nonBlank (diarizedTranscript a) -> derivedStage a finalize
| stage_record :
    ~ nonBlank (diarizedTranscript a) ->
    nonBlank (realtimeTranscript a) \/ documentsComplete a ->
    derivedStage a record
| stage_setup :
    ~ nonBlank (diarizedTranscript a) ->
    ~ nonBlank (realtimeTranscript a) ->
    ~ documentsComplete a ->
    derivedStage a setup.

End Workflow.

(** ** The citation list of [RagPanel] (components/panels/RagPanel.tsx) *)

Module Citations.

(** [index], when present, is a number with an integer value. *)
Record RagCitation : Type := {
  source_type : string;
  chunk_text : string;
  index : option Z
}.

(** A citation with the [_displayIndex] it is shown under. *)
Record Displayed : Type := {
  citation : RagCitation;
  _displayIndex : Z
}.

Definition isDigit (c : ascii) : bool :=
  let n := nat_of_ascii c in (48 <=? n)%nat && (n <=? 57)%nat.

(** [\d+] is greedy: the longest run of digits at the start, and what
    follows it. *)
Fixpoint digitsPrefix (s : string) : string * string :=
  match s with
  | EmptyString => (EmptyString, EmptyString)
  | String c rest =>
      if isDigit c then
        let '(ds, after) := digitsPrefix rest in (String c ds, after)
      else (EmptyString, s)
  end.

(** The pattern [\[(\d+)\]] tried at the start of [s]: group 1 and the
    length of the match. *)
Definition matchAt (s : string) : option (string * nat) :=
  match s with
  | String "["%char rest =>
      match digitsPrefix rest with
      | (String d ds, String "]"%char _) =>
          Some (String d ds, (String.length (String d ds) + 2)%nat)
      | _ => None
      end
  | _ => None
  end.

(** The [while ((match = regex.exec(ragAnswer)) !== null)] loop of the
    global regex: the capture of every match, left to right.  [skip] is how
    far [lastIndex] is ahead of the position under the cursor. *)
Fixpoint execAll (skip : nat) (s : string) : list string :=
  match s with
  | EmptyString => []
  | String _ rest =>
      match skip with
      | S k => execAll k rest
      | O =>
          match matchAt s with
          | Some (ds, len) => ds :: execAll (len - 1) rest
          | None => execAll 0 rest
          end
      end
  end.

Fixpoint allDigits (s : string) : bool :=
  match s with
  | EmptyString => true
  | String c rest => isDigit c && allDigits rest
  end.

(** The marker [[ds]] occurs in [s]: an opening bracket, the non-empty
    digit string [ds], a closing bracket. *)
Definition marker (ds s : string) : Prop :=
  ds <> EmptyString
  /\ allDigits ds = true
  /\ exists pre post, s = pre +:+ "[" +:+ ds +:+ "]" +:+ post.

(** None of the first [k] characters of [s] opens a bracket. *)
Fixpoint clear (k : nat) (s : string) : Prop :=
  match k, s with
  | S k', String c rest => c <> "["%char /\ clear k' rest
  | _, _ => True
  end.

(** The numbers [Number] gives for a string of digits: a double with an
    integer value, or [Infinity]. *)
Inductive JsNumber : Type :=
| Finite (value : Z)
| Infinity.

#[global] Instance JsNumber_eq_dec : EqDecision JsNumber.
Proof. solve_decision. Defined.

#[global] Instance JsNumber_countable : Countable JsNumber.
Proof.
  refine (inj_countable'
            (fun x => match x with Finite value => Some value | Infinity => None end)
            (fun o => match o with Some value => Finite value | None => Infinity end) _).
  by intros [value|].
Defined.

Definition digitValue (c : ascii) : Z := Z.of_nat (nat_of_ascii c) - 48.

Fixpoint numberFrom (acc : Z) (ds : string) : Z :=
  match ds with
  | EmptyString => acc
  | String c rest => numberFrom (acc * 10 + digitValue c) rest
  end.

(** The integer a string of decimal digits denotes. *)
Definition exactValue (ds : string) : Z := numberFrom 0 ds.

(** The double of a non-negative integer: the integer itself below 2^53;
    from there on the 53 leading bits [q] are kept and the [e] bits cut off
    are rounded to the nearest, a tie going to the even [q]; a result of
    2^1024 or more is [Infinity]. *)
Definition toDouble (n : Z) : JsNumber :=
  if n <? 2 ^ 53 then Finite n
  else
    let e := Z.log2 n - 52 in
    let q := n / 2 ^ e in
    let r := n mod 2 ^ e in
    let up := (2 ^ (e - 1) <? r) || ((r =? 2 ^ (e - 1)) && Z.odd q) in
    let rounded := (if up then q + 1 else q) * 2 ^ e in
    if 2 ^ 1024 <=? rounded then Infinity else Finite rounded.

(** [Number(match[1])] on a string of decimal digits; it is never [NaN]
    there. *)
Definition Number (ds : string) : JsNumber := toDouble (exactValue ds).

(** The set [cited]. *)
Definition cited (ragAnswer : string) : gset JsNumber :=
  list_to_set (Number <$> execAll 0 ragAnswer).

(** [ragCitations.map((c, idx) => ({...c, _displayIndex: c.index ?? idx + 1}))] *)
Definition withIndex (ragCitations : list RagCitation) : list Displayed :=
  imap (fun idx c =>
          {| citation := c;
             _displayIndex := default (Z.of_nat idx + 1) (index c) |})
       ragCitations.

(** [cited.size ? withIndex.filter(c => cited.has(c._displayIndex)) : withIndex] *)
Definition filtered (ragAnswer : string) (ragCitations : list RagCitation)
  : list Displayed :=
  if bool_decide (size (cited ragAnswer) ≠ 0%nat) then
    filter (fun c => Finite (_displayIndex c) ∈ cited ragAnswer) (withIndex ragCitations)
  else withIndex ragCitations.

End Citations.

(** ** Sample inputs *)

Module Samples.
Import Realtime.

(** A stand-in for [JSON.parse] that knows three frames. *)
Definition parse (text : string) : string + Message :=
  if String.eqb text "{type:'ping'}" then
    inr (mkMessage (Some "ping"%string) None None None)
  else if String.eqb text "{type:'transcription.delta',delta:'hel'}" then
    inr (mkMessage (Some "transcription.delta"%string) (Some "hel"%string) None None)
  else if String.eqb text "{type:'transcription.completed',transcript:'hello'}" then
    inr (mkMessage (Some "transcription.completed"%string) None None (Some "hello"%string))
  else inl "SyntaxError: Unexpected token"%string.

(** The session is minted, the microphone has one track, and the
    negotiation endpoint answers 400 to every request; the browser does not
    take an empty answer. *)
Definition refusing : Env := {|
  sessionFetch := HttpResponse true "200" "{client_token:'ek_1'}";
  sessionJson := fun _ => inr {| client_token := Some "ek_1"%string;
                                 webrtc_sdp_url := None |};
  getUserMedia := inr 1%nat;
  createOffer := inr (Some "v=0"%string);
  setLocalDescription := inr tt;
  sdpFetch := fun _ _ _ _ => HttpResponse false "400" "bad request";
  setRemoteDescription := fun sdp =>
    if Js.truthy sdp then inr tt
    else inl "Failed to parse SessionDescription."%string;
  textDecode := fun _ => EmptyString;
  JSON_parse := parse
|}.

(** A service whose connection is up: transport 0, channel 1, track 2. *)
Definition connected : Service :=
  mkService "42" (Some "en"%string) None (Some 0%nat) (Some 1%nat) (Some [2%nat])
            (Some "ek_1"%string) None "hello" "wor".

Definition connected_world : World :=
  mkWorld 3%nat [NewPeerConnection 0%nat; CreateDataChannel 0%nat 1%nat;
                 GetUserMedia [2%nat]; AddTrack 0%nat 2%nat].

(** An interview in progress: documents uploaded, two utterances so far,
    no action run yet. *)
Definition session7 : Workflow.InterviewSession :=
  {| Workflow.session_id := 7;
     Workflow.documents :=
       Some [ {| Workflow.doc_type := "JD"; Workflow.file_name := "role.pdf" |};
              {| Workflow.doc_type := "CV"; Workflow.file_name := "cv.pdf" |} ] |}.

Definition interviewing : Workflow.App :=
  Workflow.mkApp (Some "recruiter@example.org"%string) (Some session7)
    "" "Tell me about your last project." Workflow.record false "" None 0 [].

Definition next_question : Workflow.ActionButton :=
  {| Workflow.button_id := "next_question";
     Workflow.label := "Next question";
     Workflow.prompt := "Suggest the single best next interview question." |}.


(** Three retrieved chunks, none with an index of its own. *)
Definition chunk (source text : string) : Citations.RagCitation :=
  {| Citations.source_type := source;
     Citations.chunk_text := text;
     Citations.index := None |}.

Definition retrieved : list Citations.RagCitation :=
  [ chunk "JD" "Five years of Go.";
    chunk "CV" "Go since 2019.";
    chunk "transcript" "I led the migration." ].

End Samples.

(** ** More of the realtime service

    What the environment grants, and [createWebRTCConnection] cut at its
    first [await]. *)

Module Opening.
Import Realtime.

(** The body of a granted mint response: the [fetch] answered with an ok
    status and [response.json()] did not throw. *)
Definition minted (env : Env) : option RealtimeSessionResponse :=
  match sessionFetch env with
  | HttpResponse true _ body =>
      match sessionJson env body with
      | inr data => Some data
      | inl _ => None
      end
  | _ => None
  end.

(** The mint response carries a non-empty [client_token]. *)
Definition tokenGranted (env : Env) : bool :=
  match minted env with
  | Some data => Js.truthy (Js.or_lit (client_token data) "")
  | None => false
  end.

(** [this.webrtcSdpUrl || 'https://api.openai.com/v1/realtime/calls'] after
    the mint. *)
Definition sdpUrlOf (env : Env) : string :=
  match minted env with
  | Some data => Js.or_lit (Js.or_opt (webrtc_sdp_url data) None) defaultSdpUrl
  | None => defaultSdpUrl
  end.

(** [offer.sdp || ''] *)
Definition offerOf (env : Env) : string :=
  match createOffer env with
  | inr offer => Js.or_lit offer ""
  | inl _ => EmptyString
  end.

(** [createWebRTCConnection] up to [await getUserMedia(...)]: the token
    check, the peer connection and the data channel. *)
Definition createWebRTCConnection_begin : M unit :=
  s ← this;
  if negb (Js.truthy (Js.or_lit (clientToken s) "")) then
    throw "Missing realtime client token"
  else
    pc ← fresh;
    _ ← effect (NewPeerConnection pc);
    _ ← assign (set_peerConnection (Some pc));
    dc ← fresh;
    _ ← effect (CreateDataChannel pc dc);
    assign (set_dataChannel (Some dc)).

(** [createWebRTCConnection] from the moment the promise of
    [getUserMedia] settles. *)
Definition createWebRTCConnection_resume (env : Env) : M unit :=
  n ← await (getUserMedia env);
  tracks ← freshN n;
  _ ← effect (GetUserMedia tracks);
  _ ← assign (set_micStream (Some tracks));
  _ ← forEach (fun track =>
                 s ← this;
                 optionally (peerConnection s) (fun pc => effect (AddTrack pc track)))
              tracks;
  s ← this;
  pc ← deref (peerConnection s);
  _ ← effect (CreateOffer pc);
  offer ← await (createOffer env);
  s ← this;
  pc ← deref (peerConnection s);
  _ ← effect (SetLocalDescription pc);
  _ ← await (setLocalDescription env);
  s ← this;
  let sdpUrl := Js.or_lit (webrtcSdpUrl s) defaultSdpUrl in
  answerSdp ← postSdp env sdpUrl (Js.or_lit offer "") false;
  answerSdp ← (if negb (Js.truthy answerSdp) then
                 postSdp env sdpUrl (Js.or_lit offer "") true
               else mret answerSdp);
  s ← this;
  pc ← deref (peerConnection s);
  _ ← effect (SetRemoteDescription pc answerSdp);
  await (setRemoteDescription env answerSdp).

(** The deltas of a list of messages, one after the other. *)
Definition deltasOf (messages : list Message) : string :=
  foldr (fun m rest => deltaOf m +:+ rest) EmptyString messages.

Definition isDeltaEvent (message : Message) : bool :=
  match eventOf message with
  | Some (PartialDelta _) => true
  | _ => false
  end.

End Opening.

(** ** More sample inputs *)

Module MoreSamples.
Import Realtime.

(** The mint endpoint answers 401. *)
Definition unauthorized : Env := {|
  sessionFetch := HttpResponse false "401" "Not authenticated";
  sessionJson := fun _ => inl "Unexpected token"%string;
  getUserMedia := inr 1%nat;
  createOffer := inr (Some "v=0"%string);
  setLocalDescription := inr tt;
  sdpFetch := fun _ _ _ _ => HttpResponse true "200" "v=0 answer";
  setRemoteDescription := fun _ => inr tt;
  textDecode := fun _ => EmptyString;
  JSON_parse := Samples.parse
|}.

(** Everything is granted: a session with its own negotiation url, a
    microphone with two tracks, and an answer to the first request. *)
Definition granting : Env := {|
  sessionFetch := HttpResponse true "200" "{client_token:'ek_1'}";
  sessionJson := fun _ => inr {| client_token := Some "ek_1"%string;
                                 webrtc_sdp_url := Some "https://rtc.example/calls"%string |};
  getUserMedia := inr 2%nat;
  createOffer := inr (Some "v=0"%string);
  setLocalDescription := inr tt;
  sdpFetch := fun _ _ _ _ => HttpResponse true "201" "v=0 answer";
  setRemoteDescription := fun sdp =>
    if Js.truthy sdp then inr tt
    else inl "Failed to parse SessionDescription."%string;
  textDecode := fun _ => EmptyString;
  JSON_parse := Samples.parse
|}.

End MoreSamples.

(** ** Further sample inputs *)

Module Streams.
Import Realtime.

(** A service that holds a token and has not opened anything yet. *)
Definition minted_service : Service :=
  set_clientToken (Some "ek_1"%string) (new_service "42" None None).

Definition hel : Message :=
  mkMessage (Some "transcription.delta"%string) (Some "hel"%string) None None.

(** A delta event of another alias that carries its payload in [text]. *)
Definition lo : Message :=
  mkMessage (Some "input_audio_transcription.delta"%string) None (Some "lo"%string) None.

End Streams.

(** ** The recorder component (components/RealtimeInterviewRecorder.tsx) *)

Module Recorder.
Import Realtime.

(** The state hooks of the component. *)
Record Recorder : Type := mkRecorder {
  isRecording : bool;
  transcript : string;
  error : option string
}.

Definition setIsRecording (v : bool) (r : Recorder) : Recorder :=
  mkRecorder v (transcript r) (error r).
Definition setTranscript (v : string) (r : Recorder) : Recorder :=
  mkRecorder (isRecording r) v (error r).
Definition setError (v : option string) (r : Recorder) : Recorder :=
  mkRecorder (isRecording r) (transcript r) v.

(** The optional callback props, as updates of the parent's state [P]. *)
Record Props (P : Type) : Type := mkProps {
  onStartRecording : option (P -> P);
  onStopRecording : option (P -> P);
  onTranscriptUpdate : option (string -> bool -> P -> P);
  onFinalUtterance : option (string -> P -> P)
}.
Arguments mkProps {P}.
Arguments onStartRecording {P}.
Arguments onStopRecording {P}.
Arguments onTranscriptUpdate {P}.
Arguments onFinalUtterance {P}.

(** [prop?.()] *)
Definition call {P : Type} (prop : option (P -> P)) (p : P) : P :=
  match prop with
  | Some f => f p
  | None => p
  end.

(** The callbacks [start] hands to the service; no [onConnect] is given. *)
Definition receive {P : Type} (props : Props P) (st : Recorder * P) (e : Emission)
  : Recorder * P :=
  match e with
  | OnTranscript text isFinal =>
      (setTranscript text st.1,
       call ((fun f => f text isFinal) <$> onTranscriptUpdate props) st.2)
  | OnFinalUtterance utterance =>
      (st.1, call ((fun f => f utterance) <$> onFinalUtterance props) st.2)
  | OnError msg => (setError (Some msg) st.1, st.2)
  | OnConnect => st
  | OnDisconnect => (setIsRecording false st.1, st.2)
  end.

(** The callbacks never touch the service, so what they do to the hooks
    and to the parent can be read off the effects of a call afterwards. *)
Definition deliver {P : Type} (props : Props P) (l : list Effect) (st : Recorder * P)
  : Recorder * P :=
  fold_left (receive props) (emissions l) st.

(** The mounted component: its hooks, [serviceRef.current], the parent and
    the browser. *)
Record Mounted (P : Type) : Type := mkMounted {
  hooks : Recorder;
  serviceRef : option Service;
  parent : P;
  world : World
}.
Arguments mkMounted {P}.
Arguments hooks {P}.
Arguments serviceRef {P}.
Arguments parent {P}.
Arguments world {P}.

Definition start {P : Type} (env : Env) (props : Props P) (disabled : bool)
    (sessionId : string) (m : Mounted P) : Outcome unit * Mounted P :=
  if disabled || negb (Js.truthy sessionId) then (Returned tt, m)
  else
    let r1 := setError None (hooks m) in
    let p1 := call (onStartRecording props) (parent m) in
    let service := new_service sessionId (Some "en"%string) None in
    let '(result, service', w') := connect env service (world m) in
    let st := deliver props (since (world m) w') (r1, p1) in
    match result with
    | Returned _ =>
        (Returned tt, mkMounted (setIsRecording true st.1) (Some service') st.2 w')
    | Threw e => (Threw e, mkMounted st.1 (Some service') st.2 w')
    end.

Definition stop {P : Type} (props : Props P) (m : Mounted P)
  : Outcome unit * Mounted P :=
  match serviceRef m with
  | Some service =>
      let '(result, service', w') := disconnect service (world m) in
      let st := deliver props (since (world m) w') (hooks m, parent m) in
      match result with
      | Returned _ =>
          (Returned tt,
           mkMounted (setIsRecording false st.1) (Some service')
                     (call (onStopRecording props) st.2) w')
      | Threw e => (Threw e, mkMounted st.1 (Some service') st.2 w')
      end
  | None =>
      (Returned tt,
       mkMounted (setIsRecording false (hooks m)) None
                 (call (onStopRecording props) (parent m)) (world m))
  end.

(** Frames arriving on the data channel of the service in [serviceRef]. *)
Definition arrive {P : Type} (env : Env) (props : Props P) (frames : list Frame)
    (m : Mounted P) : Mounted P :=
  match serviceRef m with
  | Some service =>
      let '(_, service', w') := onmessages env frames service (world m) in
      let st := deliver props (since (world m) w') (hooks m, parent m) in
      mkMounted st.1 (Some service') st.2 w'
  | None => m
  end.

(** The decoded message of a frame, when its text parses. *)
Definition messageOf (env : Env) (raw : Frame) : option Message :=
  match JSON_parse env (frameText env raw) with
  | inr message => Some message
  | inl _ => None
  end.

(** The transcript events a run of frames carries. *)
Definition eventsOf (env : Env) (frames : list Frame) : list TranscriptEvent :=
  omap (fun raw => messageOf env raw ≫= eventOf) frames.

(** What a frame logs before its message is handled. *)
Definition decoding (env : Env) (raw : Frame) : list Effect :=
  match raw with
  | TextFrame data => [JsonParse data]
  | BinaryFrame data => [TextDecode data; JsonParse (textDecode env data)]
  end.

(** [transcript.split(/\s+/)]: the pieces are what lies between maximal
    runs of white space.  [word] is the piece under the cursor and [inRun]
    tells that the cursor is inside a run that has already closed a
    piece. *)
Fixpoint splitWhiteSpace (inRun : bool) (word : string) (s : string) : list string :=
  match s with
  | EmptyString => [word]
  | String c rest =>
      if Js.isWhiteSpace c then
        if inRun then splitWhiteSpace true EmptyString rest
        else word :: splitWhiteSpace true EmptyString rest
      else splitWhiteSpace false (word +:+ String c EmptyString) rest
  end.

(** [transcript.split(/\s+/).filter(w => w.length > 0).length] *)
Definition wordCount (transcript : string) : nat :=
  length (filter (fun w => (0 <? String.length w)%nat = true)
                 (splitWhiteSpace false EmptyString transcript)).

(** The words of [s] counted directly: maximal runs of characters that
    are not white space.  [inWord] tells that the cursor is inside one. *)
Fixpoint wordsFrom (inWord : bool) (s : string) : nat :=
  match s with
  | EmptyString => if inWord then 1%nat else 0%nat
  | String c rest =>
      if Js.isWhiteSpace c then ((if inWord then 1 else 0) + wordsFrom false rest)%nat
      else wordsFrom true rest
  end.

(** A recording under way on the connected sample service; the parent
    keeps the live transcript. *)
Definition mirroring : Props string :=
  mkProps None None (Some (fun text _ _ => text)) None.

Definition recording : Mounted string :=
  mkMounted (mkRecorder true "earlier notes" None) (Some Samples.connected)
            "earlier notes" Samples.connected_world.

Definition idle : Mounted string :=
  mkMounted (mkRecorder false "" (Some "Permission denied"%string)) None "" empty_world.

End Recorder.

(** ** The step bar, the action buttons and leaving a session (App.tsx,
    components/panels/ActionButtonsPanel.tsx) *)

Module StepBar.
Import Workflow.

Inductive StepStatus : Type := complete | current | upcoming.

(** The [status] of the entries of [steps]. *)
Definition stepStatus (step : SessionStep) (a : App) : StepStatus :=
  match step with
  | setup => if hasDocsReady a then complete else current
  | record =>
      if hasRecordingData a then complete
      else if hasDocsReady a then current else upcoming
  | finalize =>
      if hasFinalized a then complete
      else if hasRecordingData a then current else upcoming
  end.

(** [onClick={() => !isUpcoming && setActiveStep(step.id)}] *)
Definition clickStep (step : SessionStep) (a : App) : App :=
  match stepStatus step a with
  | upcoming => a
  | _ => setActiveStep step a
  end.

(** [Date.now() < actionCooldownUntil], read when the panel renders. *)
Definition isCoolingDown (rendered : Z) (a : App) : bool :=
  rendered <? actionCooldownUntil a.

(** [disabled={actionLoading || isCoolingDown}] *)
Definition actionDisabled (rendered : Z) (a : App) : bool :=
  actionLoading a || isCoolingDown rendered a.

(** The handler of "Exit session", on the hooks of [App]. *)
Definition exitSession (a : App) : App :=
  mkApp (currentUser a) None EmptyString EmptyString setup (actionLoading a)
        EmptyString None 0 (resetTimers a).

(** [handleLogout], on the hooks of [App]. *)
Definition handleLogout (a : App) : App :=
  mkApp None None (diarizedTranscript a) EmptyString (activeStep a) (actionLoading a)
        EmptyString None 0 (resetTimers a).

End StepBar.

(** ** Editing the action buttons (App.tsx, components/panels/SessionSetupPanel.tsx) *)

Module Buttons.
Import Workflow.

(** The [field] of [updateActionButton]: ['label' | 'prompt']. *)
Inductive Field : Type := Label | Prompt.

(** [{ ...btn, [field]: value }] *)
Definition setField (field : Field) (value : string) (btn : ActionButton) : ActionButton :=
  match field with
  | Label => {| button_id := button_id btn; label := value; prompt := prompt btn |}
  | Prompt => {| button_id := button_id btn; label := label btn; prompt := value |}
  end.

(** [prev.map((btn, i) => (i === index ? { ...btn, [field]: value } : btn))] *)
Definition updateActionButton (index : nat) (field : Field) (value : string)
    (prev : list ActionButton) : list ActionButton :=
  imap (fun i btn => if (i =? index)%nat then setField field value btn else btn) prev.

(** [[...prev, { id: `custom_${Date.now()}`, ... }]]; the clock reads an
    integer, which the template prints in decimal. *)
Definition addActionButton (now : Z) (prev : list ActionButton) : list ActionButton :=
  prev ++ [ {| button_id := "custom_" +:+ pretty now;
               label := "New action";
               prompt := "Describe the action." |} ].

(** [Array.prototype.filter] with a predicate on the element and its
    index; [i] is the index of the head. *)
Fixpoint filterFrom {A : Type} (keep : A -> nat -> bool) (i : nat) (l : list A) : list A :=
  match l with
  | [] => []
  | x :: rest =>
      if keep x i then x :: filterFrom keep (S i) rest else filterFrom keep (S i) rest
  end.

(** [prev.filter((_, i) => i !== index)] *)
Definition removeActionButton (index : nat) (prev : list ActionButton)
  : list ActionButton :=
  filterFrom (fun _ i => negb (i =? index)%nat) 0 prev.

(** What the user can do in the editor of the setup panel. *)
Inductive Edit : Type :=
| Change (index : nat) (field : Field) (value : string)
| Add (now : Z)
| Remove (index : nat).

(** [disabled={actionButtons.length <= 1}] on the Remove button. *)
Definition removeDisabled (actionButtons : list ActionButton) : bool :=
  (length actionButtons <=? 1)%nat.

(** One edit; a click on a disabled button does nothing. *)
Definition edit (actionButtons : list ActionButton) (e : Edit) : list ActionButton :=
  match e with
  | Change index field value => updateActionButton index field value actionButtons
  | Add now => addActionButton now actionButtons
  | Remove index =>
      if removeDisabled actionButtons then actionButtons
      else removeActionButton index actionButtons
  end.

(** The clock readings of the buttons added by a run of edits. *)
Definition stamps (edits : list Edit) : list Z :=
  omap (fun e => match e with Add now => Some now | _ => None end) edits.

(** Two buttons to start from. *)
Definition probe_deeper : ActionButton :=
  {| button_id := "probe_deeper";
     label := "Probe deeper";
     prompt := "Suggest follow-up questions using the STAR method." |}.

Definition two_buttons : list ActionButton := [Samples.next_question; probe_deeper].

End Buttons.

(** ** Asking questions (App.tsx, components/panels/RagPanel.tsx) *)

Module Rag.
Import Workflow Citations.

(** The state hooks under [// --- rag ---]. *)
Record Rag : Type := mkRag {
  ragQuestion : string;
  ragAnswer : string;
  ragCitations : list RagCitation;
  ragLoading : bool;
  ragError : option string
}.

Definition setRagAnswer (v : string) (r : Rag) : Rag :=
  mkRag (ragQuestion r) v (ragCitations r) (ragLoading r) (ragError r).
Definition setRagCitations (v : list RagCitation) (r : Rag) : Rag :=
  mkRag (ragQuestion r) (ragAnswer r) v (ragLoading r) (ragError r).
Definition setRagLoading (v : bool) (r : Rag) : Rag :=
  mkRag (ragQuestion r) (ragAnswer r) (ragCitations r) v (ragError r).
Definition setRagError (v : option string) (r : Rag) : Rag :=
  mkRag (ragQuestion r) (ragAnswer r) (ragCitations r) (ragLoading r) v.

(** The body of the request to the chat endpoint. *)
Record ChatRequest : Type := {
  chat_session : Z;
  question : string
}.

(** How the backend answers: [data.answer] and [data.citations], or a
    rejection with [err.response?.data?.detail]. *)
Inductive ChatReply : Type :=
| ChatOutput (answer : option string) (citations : option (list RagCitation))
| ChatFailure (detail : option string).

(** [handleRagAsk] up to its [await]. *)
Definition handleRagAsk_begin (session : option InterviewSession) (r : Rag)
  : Rag * option ChatRequest :=
  match session with
  | None => (r, None)
  | Some s =>
      let question := Js.trim (ragQuestion r) in
      if negb (Js.truthy question) then (r, None)
      else
        (setRagError None (setRagLoading true r),
         Some {| chat_session := session_id s; question := question |})
  end.

(** [handleRagAsk] after its [await]: the [try] tail, [catch] and
    [finally]. *)
Definition handleRagAsk_settle (reply : ChatReply) (r : Rag) : Rag :=
  let r1 :=
    match reply with
    | ChatOutput answer citations =>
        setRagCitations (default [] citations) (setRagAnswer (Js.or_lit answer "") r)
    | ChatFailure detail => setRagError (Some (Js.or_lit detail "RAG chat failed")) r
    end in
  setRagLoading false r1.

(** One whole call, when nothing else runs before the request settles. *)
Definition handleRagAsk (session : option InterviewSession) (reply : ChatReply) (r : Rag)
  : Rag * option ChatRequest :=
  match handleRagAsk_begin session r with
  | (r', Some request) => (handleRagAsk_settle reply r', Some request)
  | stopped => stopped
  end.

(** [disabled={ragLoading || !ragQuestion.trim()}] on the Ask button. *)
Definition askDisabled (r : Rag) : bool :=
  ragLoading r || negb (Js.truthy (Js.trim (ragQuestion r))).

(** The entries under "Sources": the list is rendered when
    [ragCitations.length > 0]. *)
Definition sources (r : Rag) : list Displayed :=
  if (0 <? length (ragCitations r))%nat then filtered (ragAnswer r) (ragCitations r)
  else [].

(** An answer on display, and a new question typed with spaces around. *)
Definition answered : Rag :=
  mkRag "  Any gaps? " "Five years of Go [1]." Samples.retrieved false None.

End Rag.

(** ** Persisting utterances (App.tsx) *)

Module Persist.
Import Realtime Workflow Recorder.

(** The body of a request to the transcript endpoint. *)
Record UpdateRequest : Type := {
  update_session : Z;
  final_utterance : string
}.

(** [persistFinalUtterance] up to its [await]: the request it sends, if
    any. *)
Definition persistFinalUtterance (session : option InterviewSession) (utterance : string)
  : option UpdateRequest :=
  match session with
  | None => None
  | Some s =>
      if negb (Js.truthy (Js.trim utterance)) then None
      else Some {| update_session := session_id s; final_utterance := utterance |}
  end.

(** What [App] keeps of a recording: the live transcript and the requests
    sent to the transcript endpoint. *)
Record Kept : Type := mkKept {
  liveTranscript : string;
  sent : list UpdateRequest
}.

(** [onTranscriptUpdate={(text) => setRealtimeTranscript(text)}] *)
Definition onTranscriptUpdate_app (text : string) (isFinal : bool) (k : Kept) : Kept :=
  mkKept text (sent k).

(** [onFinalUtterance={(utterance) => persistFinalUtterance(utterance)}],
    with the session of the render that made the callback. *)
Definition onFinalUtterance_app (session : option InterviewSession) (utterance : string)
    (k : Kept) : Kept :=
  mkKept (liveTranscript k) (sent k ++ option_list (persistFinalUtterance session utterance)).

(** The utterances of a run of transcript events. *)
Definition finals (events : list TranscriptEvent) : list string :=
  omap (fun e => match e with FinalUtterance t => Some t | PartialDelta _ => None end)
       events.

(** What the service emits for a run of transcript events, from the
    accumulator fields it starts with. *)
Fixpoint emitted (final partial : string) (events : list TranscriptEvent)
  : list Emission :=
  match events with
  | [] => []
  | PartialDelta t :: rest =>
      OnTranscript (final +:+ (partial +:+ t)) false
      :: emitted final (partial +:+ t) rest
  | FinalUtterance t :: rest =>
      OnFinalUtterance t
      :: OnTranscript (appendUtterance final t) true
      :: emitted (appendUtterance final t) EmptyString rest
  end.

(** The props [App] passes for the two transcript callbacks.  *)
Definition wired (session : option InterviewSession) : Props Kept :=
  mkProps None None (Some onTranscriptUpdate_app) (Some (onFinalUtterance_app session)).

Definition keeping : Mounted Kept :=
  mkMounted (mkRecorder true "hellowor" None) (Some Samples.connected)
            (mkKept "hellowor" []) Samples.connected_world.

(** A stand-in for [JSON.parse] that also knows a completion event whose
    transcript is one space. *)
Definition parse_blank (text : string) : string + Message :=
  if String.eqb text "{type:'transcription.completed',transcript:' '}" then
    inr (mkMessage (Some "transcription.completed"%string) None None (Some " "%string))
  else Samples.parse text.

Definition hearing : Env := {|
  sessionFetch := sessionFetch MoreSamples.granting;
  sessionJson := sessionJson MoreSamples.granting;
  getUserMedia := getUserMedia MoreSamples.granting;
  createOffer := createOffer MoreSamples.granting;
  setLocalDescription := setLocalDescription MoreSamples.granting;
  sdpFetch := sdpFetch MoreSamples.granting;
  setRemoteDescription := setRemoteDescription MoreSamples.granting;
  textDecode := textDecode MoreSamples.granting;
  JSON_parse := parse_blank
|}.

End Persist.

(** ** The greeting of the welcome panel (components/panels/WelcomePanel.tsx) *)

Module Welcome.

(** [s.split(sep)[0]] for a separator of one character: what comes before
    its first occurrence, or all of [s]. *)
Fixpoint firstPiece (sep : ascii) (s : string) : string :=
  match s with
  | EmptyString => EmptyString
  | String c rest =>
      if Ascii.eqb c sep then EmptyString else String c (firstPiece sep rest)
  end.

(** [userName ? `Welcome back, ${userName.split('@')[0]}` : 'Welcome'] *)
Definition greeting (userName : option string) : string :=
  match userName with
  | Some name =>
      if Js.truthy name then "Welcome back, " +:+ firstPiece "@" name else "Welcome"
  | None => "Welcome"
  end.

End Welcome.

(** * Properties *)

(** ** String helpers *)

Section JsFacts.

Lemma truthy_true (s : string) : Js.truthy s = true <-> s <> EmptyString.
Proof. destruct s; simpl; split; congruence. Qed.

Lemma truthy_false (s : string) : Js.truthy s = false <-> s = EmptyString.
Proof. destruct s; simpl; split; congruence. Qed.

Lemma append_nil_l (t : string) : "" +:+ t = t.
Proof. reflexivity. Qed.

Lemma append_cons (c : ascii) (s t : string) :
  String c s +:+ t = String c (s +:+ t).
Proof. reflexivity. Qed.

Lemma append_empty_r (s : string) : s +:+ "" = s.
Proof.
  induction s as [|c s IH]; [reflexivity|].
  by rewrite append_cons, IH.
Qed.

Lemma append_assoc (a b c : string) : (a +:+ b) +:+ c = a +:+ (b +:+ c).
Proof.
  induction a as [|x a IH]; [reflexivity|].
  by rewrite !append_cons, IH.
Qed.

Lemma append_eq_empty (a b : string) : a +:+ b = "" -> a = "" /\ b = "".
Proof. destruct a; [rewrite append_nil_l; tauto | rewrite append_cons; discriminate]. Qed.

Lemma trimStart_head (s : string) :
  Js.trimStart s = EmptyString
  \/ exists c rest, Js.trimStart s = String c rest /\ Js.isWhiteSpace c = false.
Proof.
  induction s as [|c rest IH]; simpl; [by left|].
  destruct (Js.isWhiteSpace c) eqn:Hc; [exact IH|]. right. by exists c, rest.
Qed.

Lemma trimEnd_kept (c : ascii) (rest : string) :
  Js.isWhiteSpace c = false -> Js.trimEnd (String c rest) <> EmptyString.
Proof. intros Hc. simpl. rewrite Hc. by destruct (Js.trimEnd rest). Qed.

Lemma trim_empty_iff (s : string) :
  Js.trim s = EmptyString <-> Js.trimStart s = EmptyString.
Proof.
  unfold Js.trim. split; [|by intros ->].
  destruct (trimStart_head s) as [->|(c & rest & -> & Hc)]; [done|].
  intros Hend. by apply trimEnd_kept in Hend.
Qed.

End JsFacts.

(** ** Runs on sample inputs *)

Section Runs.
Import Realtime.

Example trim_both_ends : Js.trim "  next question  " = "next question"%string.
Proof. reflexivity. Qed.

Example trim_blank_transcript :
  Js.trim (String (ascii_of_nat 160) (String (ascii_of_nat 9) " ")) = ""%string.
Proof. reflexivity. Qed.

Example markers_of_an_answer :
  Citations.execAll 0 "See [1] and [3], not [x], [] or [4, but [[12]]"
  = ["1"; "3"; "12"]%string.
Proof. reflexivity. Qed.

Example leading_zeros_and_repeats :
  elements (Citations.cited "[2] [02] [2]") = [Citations.Finite 2].
Proof. reflexivity. Qed.

(** Where doubles stop being integers one apart: a tie goes to the even
    neighbour; the largest double; and the first integer that is
    [Infinity]. *)
Example rounding_from_2_53 :
  Citations.Number "9007199254740992" = Citations.Finite 9007199254740992
  /\ Citations.Number "9007199254740993" = Citations.Finite 9007199254740992
  /\ Citations.Number "9007199254740995" = Citations.Finite 9007199254740996
  /\ Citations.toDouble (2 ^ 1024 - 2 ^ 970 - 1) = Citations.Finite (2 ^ 1024 - 2 ^ 971)
  /\ Citations.toDouble (2 ^ 1024 - 2 ^ 970) = Citations.Infinity.
Proof. repeat split; by vm_compute. Qed.

(** A delta, a frame that is not JSON, a keep-alive and a completion. *)
Example frames_in_order :
  let frames := [TextFrame "{type:'transcription.delta',delta:'hel'}";
                 TextFrame "ping";
                 BinaryFrame [];
                 TextFrame "{type:'ping'}";
                 TextFrame "{type:'transcription.completed',transcript:'hello'}"] in
  let '(r, s, w) := onmessages Samples.refusing frames
                      (new_service "42" None None) empty_world in
  r = Returned tt
  /\ finalText s = "hello"%string /\ partialText s = ""%string
  /\ emissions (log w) = [OnTranscript "hel" false;
                          OnFinalUtterance "hello";
                          OnTranscript "hello" true]
  /\ jsonParses (log w) = 5%nat.
Proof. repeat split; reflexivity. Qed.

(** The pending partial is shown right after the finalized text. *)
Example partial_after_final :
  let messages := [mkMessage (Some "transcription.completed"%string) None None
                             (Some "hello"%string);
                   mkMessage (Some "input_audio_transcription.delta"%string) None
                             (Some "wor"%string) None;
                   mkMessage (Some "audio.input.transcription.completed"%string) None
                             (Some "world"%string) None] in
  let '(_, s, w) := handleMessages messages (new_service "42" None None) empty_world in
  emissions (log w) = [OnFinalUtterance "hello"; OnTranscript "hello" true;
                       OnTranscript "hellowor" false;
                       OnFinalUtterance "world";
                       OnTranscript ("hello" +:+ Js.LF +:+ "world") true]
  /\ finalText s = ("hello" +:+ Js.LF +:+ "world")%string.
Proof. split; reflexivity. Qed.

Example stage_of_sample :
  Workflow.activeStep (Workflow.autoAdvance Samples.interviewing) = Workflow.record.
Proof. reflexivity. Qed.

End Runs.

(** ** The realtime service *)

(** Runs the monadic glue of a method body. *)
Ltac run :=
  unfold mbind, mret, Realtime.M_bind, Realtime.M_ret, Realtime.callback,
    Realtime.effect, Realtime.assign, Realtime.this, Realtime.throw,
    Realtime.await, Realtime.optionally, Realtime.past, Realtime.fresh,
    Realtime.deref; simpl.

Section RealtimeFacts.
Import Realtime.

Lemma completed_not_delta (t : option string) :
  isCompletedType t = true -> isDeltaType t = false.
Proof.
  destruct t as [s|]; [|discriminate].
  unfold isCompletedType, isDeltaType, Js.strict_eq.
  rewrite !orb_true_iff.
  intros [[[H|H]|H]|H]; apply String.eqb_eq in H; subst s; reflexivity.
Qed.

Lemma handleMessage_eventOf (message : Message) (s : Service) (w : World) :
  handleMessage message s w =
    match eventOf message with
    | Some (PartialDelta t) =>
        (Returned tt,
         set_partialText (partialText s +:+ t) s,
         mkWorld (nextHandle w)
           (log w ++ [Callback (OnTranscript (finalText s +:+ (partialText s +:+ t)) false)]))
    | Some (FinalUtterance t) =>
        (Returned tt,
         set_partialText "" (set_finalText (appendUtterance (finalText s) t) s),
         mkWorld (nextHandle w)
           (log w ++ [Callback (OnFinalUtterance t);
                      Callback (OnTranscript (appendUtterance (finalText s) t) true)]))
    | None => (Returned tt, s, w)
    end.
Proof.
  unfold handleMessage, eventOf.
  destruct (isDeltaType (type message)).
  - destruct (Js.truthy (deltaOf message)); reflexivity.
  - destruct (isCompletedType (type message)); [|reflexivity].
    destruct (Js.truthy (transcriptOf message)); [|reflexivity].
    run. by rewrite <- app_assoc.
Qed.

(** C1: a partial delta is appended to the pending partial and the
    transcript [finalText + partialText] is emitted as not final; a final
    utterance becomes [finalText] when that was empty and is appended after
    a line feed otherwise, the pending partial is cleared, the utterance
    alone is notified through [onFinalUtterance] and the new [finalText] is
    emitted as final. *)
Theorem handleMessage_folds_event (message : Message) (s : Service) (w : World) :
  match eventOf message with
  | Some (PartialDelta text) =>
      handleMessage message s w =
        (Returned tt,
         set_partialText (partialText s +:+ text) s,
         mkWorld (nextHandle w)
           (log w ++ [Callback
                        (OnTranscript (finalText s +:+ (partialText s +:+ text)) false)]))
  | Some (FinalUtterance text) =>
      let finalized :=
        if decide (finalText s = "") then text
        else finalText s +:+ Js.LF +:+ text in
      handleMessage message s w =
        (Returned tt,
         set_partialText "" (set_finalText finalized s),
         mkWorld (nextHandle w)
           (log w ++ [Callback (OnFinalUtterance text);
                      Callback (OnTranscript finalized true)]))
  | None => handleMessage message s w = (Returned tt, s, w)
  end.
Proof.
  rewrite handleMessage_eventOf.
  destruct (eventOf message) as [[t|t]|]; try reflexivity.
  unfold appendUtterance. simpl.
  destruct (decide (finalText s = "")) as [E|E].
  - rewrite E. reflexivity.
  - apply truthy_true in E. rewrite E. reflexivity.
Qed.

Lemma join_cons_cons (sep a b : string) (l : list string) :
  Js.join sep (a :: b :: l) = a +:+ sep +:+ Js.join sep (b :: l).
Proof. reflexivity. Qed.

Lemma join_nonempty (sep : string) (us : list string) :
  Forall (fun u => u <> "") us -> us <> [] -> Js.join sep us <> "".
Proof.
  intros Hall Hne. destruct us as [|a [|b l]]; [done| |].
  - simpl. by inversion Hall.
  - rewrite join_cons_cons. inversion Hall; subst.
    intros H. apply append_eq_empty in H. tauto.
Qed.

Lemma join_snoc (us : list string) (u : string) :
  Forall (fun u => u <> "") us ->
  Js.join Js.LF (us ++ [u]) = appendUtterance (Js.join Js.LF us) u.
Proof.
  induction us as [|a us IH]; intros Hall; [reflexivity|].
  inversion Hall as [|? ? Ha Hus]; subst.
  destruct us as [|b l].
  - simpl. unfold appendUtterance. apply truthy_true in Ha. by rewrite Ha.
  - change ((a :: b :: l) ++ [u]) with (a :: b :: (l ++ [u])).
    rewrite !join_cons_cons.
    change (b :: l ++ [u]) with ((b :: l) ++ [u]).
    rewrite (IH Hus). unfold appendUtterance.
    assert (Hb : Js.truthy (Js.join Js.LF (b :: l)) = true).
    { apply truthy_true, join_nonempty; [done | discriminate]. }
    assert (Hab : Js.truthy (a +:+ Js.LF +:+ Js.join Js.LF (b :: l)) = true).
    { apply truthy_true. intros H. apply append_eq_empty in H. tauto. }
    rewrite Hb, Hab. by rewrite !append_assoc.
Qed.

Lemma utterances_app (l l' : list Effect) :
  utterances (l ++ l') = utterances l ++ utterances l'.
Proof. unfold utterances. apply omap_app. Qed.

Lemma eventOf_final_nonempty (message : Message) (t : string) :
  eventOf message = Some (FinalUtterance t) -> t <> "".
Proof.
  unfold eventOf.
  destruct (isDeltaType _); [destruct (Js.truthy (deltaOf _)); discriminate|].
  destruct (isCompletedType _); [|discriminate].
  destruct (Js.truthy (transcriptOf message)) eqn:E; [|discriminate].
  intros [= <-]. by apply truthy_true.
Qed.

Lemma finalTranscripts_app (l l' : list Effect) :
  finalTranscripts (l ++ l') = finalTranscripts l ++ finalTranscripts l'.
Proof. unfold finalTranscripts. apply omap_app. Qed.

Lemma in_step_delta (s : Service) (w : World) (t : string) :
  in_step s w ->
  in_step (set_partialText (partialText s +:+ t) s)
          (mkWorld (nextHandle w)
             (log w ++ [Callback (OnTranscript (finalText s +:+ (partialText s +:+ t))
                                               false)])).
Proof.
  intros (Hf & Hne & Hlast). unfold in_step. simpl.
  rewrite utterances_app, finalTranscripts_app. simpl. by rewrite !app_nil_r.
Qed.

Lemma in_step_final (s : Service) (w : World) (t : string) :
  t <> "" ->
  in_step s w ->
  in_step (set_partialText "" (set_finalText (appendUtterance (finalText s) t) s))
          (mkWorld (nextHandle w)
             (log w ++ [Callback (OnFinalUtterance t);
                        Callback (OnTranscript (appendUtterance (finalText s) t) true)])).
Proof.
  intros Ht (Hf & Hne & Hlast). unfold in_step. simpl.
  rewrite utterances_app, finalTranscripts_app. simpl.
  split; [|split].
  - rewrite join_snoc by done. by rewrite Hf.
  - apply Forall_app. split; [done|]. by constructor.
  - rewrite last_snoc. by destruct (utterances (log w)).
Qed.

Lemma handleMessages_in_step (messages : list Message) (s : Service) (w : World) :
  in_step s w ->
  exists s' w',
    handleMessages messages s w = (Returned tt, s', w')
    /\ in_step s' w'
    /\ utterances (log w') = utterances (log w) ++ omap finalUtteranceOf messages.
Proof.
  revert s w. induction messages as [|m ms IH]; intros s w Hin.
  - exists s, w. simpl. by rewrite app_nil_r.
  - unfold handleMessages. simpl. unfold mbind at 1, M_bind at 1.
    rewrite handleMessage_eventOf. unfold finalUtteranceOf at 1.
    destruct (eventOf m) as [[t|t]|] eqn:Ev.
    + destruct (IH _ _ (in_step_delta s w t Hin)) as (s' & w' & Hrun & Hin' & Hu).
      exists s', w'. split; [exact Hrun|]. split; [exact Hin'|].
      rewrite Hu. simpl. rewrite utterances_app. simpl. by rewrite app_nil_r.
    + pose proof (eventOf_final_nonempty _ _ Ev) as Ht.
      destruct (IH _ _ (in_step_final s w t Ht Hin)) as (s' & w' & Hrun & Hin' & Hu).
      exists s', w'. split; [exact Hrun|]. split; [exact Hin'|].
      rewrite Hu. simpl. rewrite utterances_app. simpl. by rewrite <- app_assoc.
    + destruct (IH s w Hin) as (s' & w' & Hrun & Hin' & Hu).
      exists s', w'. done.
Qed.

(** C7: whatever messages arrive, [finalText] is the utterances notified
    through [onFinalUtterance] joined by line feeds in the order they were
    emitted; these are the texts of the completion events in arrival order,
    each once; and the last transcript emitted as final, if any utterance
    was notified, is that same text. *)
Theorem utterances_rebuild_finalText
    (messages : list Message) (sid : string) (lang mdl : option string) :
  exists s w,
    handleMessages messages (new_service sid lang mdl) empty_world = (Returned tt, s, w)
    /\ finalText s = Js.join Js.LF (utterances (log w))
    /\ utterances (log w) = omap finalUtteranceOf messages
    /\ last (finalTranscripts (log w))
       = if decide (utterances (log w) = []) then None
         else Some (Js.join Js.LF (utterances (log w))).
Proof.
  destruct (handleMessages_in_step messages (new_service sid lang mdl) empty_world)
    as (s & w & Hrun & (Hf & _ & Hlast) & Hu).
  { split; [reflexivity | split; [constructor | reflexivity]]. }
  exists s, w. rewrite <- Hf. done.
Qed.

Lemma jsonParses_snoc (l : list Effect) (e : Effect) :
  jsonParses (l ++ [e]) =
    (jsonParses l + match e with JsonParse _ => 1 | _ => 0 end)%nat.
Proof.
  unfold jsonParses. rewrite List.filter_app, length_app.
  destruct e; reflexivity.
Qed.

Lemma emissions_app (l l' : list Effect) :
  emissions (l ++ l') = emissions l ++ emissions l'.
Proof. unfold emissions. apply omap_app. Qed.

Lemma handleMessage_returns (message : Message) (s : Service) (w : World) :
  exists s' w',
    handleMessage message s w = (Returned tt, s', w')
    /\ jsonParses (log w') = jsonParses (log w)
    /\ (eventOf message = None -> s' = s /\ w' = w).
Proof.
  rewrite handleMessage_eventOf.
  destruct (eventOf message) as [[t|t]|]; eexists _, _; (split; [reflexivity|]).
  - simpl. rewrite jsonParses_snoc. simpl. split; [lia | discriminate].
  - simpl. change [Callback (OnFinalUtterance t);
                   Callback (OnTranscript (appendUtterance (finalText s) t) true)]
      with ([Callback (OnFinalUtterance t)]
              ++ [Callback (OnTranscript (appendUtterance (finalText s) t) true)]).
    rewrite app_assoc, !jsonParses_snoc. simpl. split; [lia | discriminate].
  - done.
Qed.

Lemma unlisted_or_empty_no_event (message : Message) :
  (isDeltaType (type message) = false /\ isCompletedType (type message) = false)
  \/ (isDeltaType (type message) = true /\ deltaOf message = "")
  \/ (isCompletedType (type message) = true /\ transcriptOf message = "") ->
  eventOf message = None.
Proof.
  unfold eventOf. intros [[Hd Hc]|[[Hd He]|[Hc He]]].
  - by rewrite Hd, Hc.
  - by rewrite Hd, He.
  - by rewrite (completed_not_delta _ Hc), Hc, He.
Qed.

(** C8: the frame handler returns normally on every frame and calls
    [JSON.parse] exactly once; on text that does not parse, on a type
    outside the alias lists, on a delta event with an empty payload and on a
    completion event with an empty payload, it makes no callback and leaves
    the fields of the service as they were. *)
Theorem onmessage_tolerates_noise (env : Env) (raw : Frame) (s : Service) (w : World) :
  exists s' w',
    onmessage env raw s w = (Returned tt, s', w')
    /\ jsonParses (log w') = S (jsonParses (log w))
    /\ (noise env raw -> s' = s /\ emissions (log w') = emissions (log w)).
Proof.
  unfold noise, onmessage, try_catch, jsonParse, decode.
  destruct raw as [data|data]; run.
  - destruct (JSON_parse env data) as [err|message]; run.
    + eexists _, _. split; [reflexivity|]. simpl.
      rewrite jsonParses_snoc, emissions_app. simpl.
      split; [lia|]. intros _. by rewrite app_nil_r.
    + destruct (handleMessage_returns message s
                  (mkWorld (nextHandle w) (log w ++ [JsonParse data])))
        as (s' & w' & Hrun & Hparses & Hnone).
      rewrite Hrun. exists s', w'. split; [reflexivity|].
      rewrite Hparses. simpl. rewrite jsonParses_snoc. split; [simpl; lia|].
      intros Hnoise. destruct (Hnone (unlisted_or_empty_no_event _ Hnoise)) as [-> ->].
      simpl. rewrite emissions_app. simpl. by rewrite app_nil_r.
  - destruct (JSON_parse env (textDecode env data)) as [err|message]; run.
    + eexists _, _. split; [reflexivity|]. simpl.
      rewrite !jsonParses_snoc, !emissions_app. simpl.
      split; [lia|]. intros _. by rewrite !app_nil_r.
    + destruct (handleMessage_returns message s
                  (mkWorld (nextHandle w)
                     ((log w ++ [TextDecode data]) ++ [JsonParse (textDecode env data)])))
        as (s' & w' & Hrun & Hparses & Hnone).
      rewrite Hrun. exists s', w'. split; [reflexivity|].
      rewrite Hparses. simpl. rewrite !jsonParses_snoc. split; [simpl; lia|].
      intros Hnoise. destruct (Hnone (unlisted_or_empty_no_event _ Hnoise)) as [-> ->].
      simpl. rewrite !emissions_app. simpl. by rewrite !app_nil_r.
Qed.

Lemma onmessage_tolerates_noise_witness :
  noise Samples.refusing (TextFrame "{type:'ping'}")
  /\ exists w',
      onmessage Samples.refusing (TextFrame "{type:'ping'}")
        Samples.connected Samples.connected_world
      = (Returned tt, Samples.connected, w')
      /\ emissions (log w') = [].
Proof.
  assert (Hnoise : noise Samples.refusing (TextFrame "{type:'ping'}")).
  { left. split; reflexivity. }
  split; [exact Hnoise|].
  destruct (onmessage_tolerates_noise Samples.refusing (TextFrame "{type:'ping'}")
              Samples.connected Samples.connected_world)
    as (s' & w' & Hrun & _ & Hsame).
  destruct (Hsame Hnoise) as [-> Hem].
  exists w'. split; [exact Hrun | exact Hem].
Defined.

(** *** Shutdown *)

Lemma forEach_effect {A : Type} (f : A -> Effect) (l : list A) (s : Service) (w : World) :
  forEach (fun x s w => (Returned tt, s, mkWorld (nextHandle w) (log w ++ [f x]))) l s w
  = (Returned tt, s, mkWorld (nextHandle w) (log w ++ (f <$> l))).
Proof.
  revert w. induction l as [|x l IH]; intros w; simpl.
  - rewrite app_nil_r. by destruct w.
  - run. rewrite IH. simpl. by rewrite <- app_assoc.
Qed.

Lemma disconnect_run (s : Service) (w : World) :
  disconnect s w
  = (Returned tt, cleared s,
     mkWorld (nextHandle w) (log w ++ teardown s ++ [Callback OnDisconnect])).
Proof.
  unfold disconnect, try_finally, teardown, cleared.
  destruct s as [sid lang mdl [pc|] [dc|] [tracks|] tok url fin par]; run;
    rewrite ?forEach_effect; simpl; rewrite <- ?app_assoc; simpl;
    rewrite ?app_nil_r; reflexivity.
Qed.

Lemma allBefore_no_first (first second : Effect -> bool) (l : list Effect) :
  forallb (fun e => negb (first e)) l = true -> allBefore first second l = true.
Proof.
  induction l as [|e l IH]; simpl; [done|].
  rewrite andb_true_iff. intros [_ Hl]. rewrite (IH Hl), Hl. by destruct (second e).
Qed.

Lemma allBefore_app_no_first (first second : Effect -> bool) (l l' : list Effect) :
  forallb (fun e => negb (first e)) l' = true ->
  allBefore first second (l ++ l') = allBefore first second l.
Proof.
  intros Hl'. induction l as [|e l IH]; simpl.
  - by apply allBefore_no_first.
  - rewrite IH, forallb_app, Hl', andb_true_r. reflexivity.
Qed.

Lemma stops_only (first : Effect -> bool) (tracks : list Handle) :
  (forall t, first (StopTrack t) = false) ->
  forallb (fun e => negb (first e)) (StopTrack <$> tracks) = true.
Proof.
  intros H. induction tracks as [|t ts IH]; [done|].
  rewrite fmap_cons. simpl. rewrite H. exact IH.
Qed.

Lemma tail_no_first (first : Effect -> bool) (tracks : list Handle) :
  (forall t, first (StopTrack t) = false) ->
  first (Callback OnDisconnect) = false ->
  forallb (fun e => negb (first e)) ((StopTrack <$> tracks) ++ [Callback OnDisconnect])
  = true.
Proof.
  intros Hstop Hcb. rewrite forallb_app, stops_only by done.
  simpl. by rewrite Hcb.
Qed.

Lemma order_of_prefix (pre : list Effect) (tracks : list Handle) :
  channelThenTransportThenStops pre = true ->
  channelThenTransportThenStops
    (pre ++ (StopTrack <$> tracks) ++ [Callback OnDisconnect]) = true.
Proof.
  unfold channelThenTransportThenStops.
  rewrite !allBefore_app_no_first by (by apply tail_no_first).
  done.
Qed.

Lemma teardown_order (s : Service) :
  channelThenTransportThenStops (teardown s ++ [Callback OnDisconnect]) = true.
Proof.
  unfold teardown.
  destruct (dataChannel s) as [dc|], (peerConnection s) as [pc|].
  - exact (order_of_prefix [CloseChannel dc; CloseTransport pc] _ eq_refl).
  - exact (order_of_prefix [CloseChannel dc] _ eq_refl).
  - exact (order_of_prefix [CloseTransport pc] _ eq_refl).
  - exact (order_of_prefix [] _ eq_refl).
Qed.

Lemma since_app (w : World) (n : Handle) (l : list Effect) :
  since w (mkWorld n (log w ++ l)) = l.
Proof. unfold since. simpl. by rewrite drop_app_length. Qed.

(** C2, as the code has it: in every state, [disconnect] closes the event
    channel, then closes the transport, then stops the local media tracks
    (each step only for a field that is set), clears the three fields and
    calls [onDisconnect]. *)
Theorem disconnect_teardown_order (s : Service) (w : World) :
  exists w',
    disconnect s w = (Returned tt, cleared s, w')
    /\ since w w' = teardown s ++ [Callback OnDisconnect]
    /\ channelThenTransportThenStops (since w w') = true.
Proof.
  rewrite disconnect_run. eexists. split; [reflexivity|].
  rewrite since_app. split; [reflexivity | apply teardown_order].
Qed.

(** C2 as stated fails: with a channel, a transport and a track allocated,
    the track is stopped last, after both closes. *)
Lemma disconnect_stops_tracks_last :
  since Samples.connected_world
        (disconnect Samples.connected Samples.connected_world).2
  = [CloseChannel 1%nat; CloseTransport 0%nat; StopTrack 2%nat; Callback OnDisconnect]
  /\ stopsThenChannelThenTransport
       (since Samples.connected_world
              (disconnect Samples.connected Samples.connected_world).2) = false.
Proof. split; reflexivity. Qed.

(** *** Opening the session *)

Lemma freshN_run (n : nat) (s : Service) (w : World) :
  freshN n s w
  = (Returned (seq (nextHandle w) n), s, mkWorld (nextHandle w + n)%nat (log w)).
Proof.
  revert w. induction n as [|n IH]; intros w; simpl.
  - run. rewrite Nat.add_0_r. by destruct w.
  - run. rewrite IH. simpl. by rewrite Nat.add_succ_r.
Qed.

Lemma forEach_log {A : Type} (f : A -> M unit) (g : Service -> A -> list Effect)
    (l : list A) (s : Service) (w : World) :
  (forall x s w, f x s w = (Returned tt, s, mkWorld (nextHandle w) (log w ++ g s x))) ->
  forEach f l s w
  = (Returned tt, s, mkWorld (nextHandle w) (log w ++ concat (g s <$> l))).
Proof.
  intros Hf. revert w. induction l as [|x l IH]; intros w; simpl.
  - rewrite app_nil_r. by destruct w.
  - run. rewrite Hf, IH. simpl. by rewrite <- app_assoc.
Qed.

Lemma postSdp_run (env : Env) (url sdp : string) (beta : bool) (s : Service) (w : World) :
  postSdp env url sdp beta s w
  = let w' := mkWorld (nextHandle w) (log w ++ [PostSdp url sdp beta]) in
    match sdpFetch env (length (posts (log w))) url sdp beta with
    | NetworkError e => (Threw e, s, w')
    | HttpResponse ok _ body =>
        (Returned (if negb ok then EmptyString else body), s, w')
    end.
Proof.
  unfold postSdp. run.
  destruct (sdpFetch env _ url sdp beta) as [e|[|] st body]; reflexivity.
Qed.

Lemma posts_app (l l' : list Effect) : posts (l ++ l') = posts l ++ posts l'.
Proof. apply List.filter_app. Qed.

Lemma posts_cons (e : Effect) (l : list Effect) :
  posts (e :: l) = if isPostSdp e then e :: posts l else posts l.
Proof. reflexivity. Qed.

Lemma posts_nil : posts [] = [].
Proof. reflexivity. Qed.

Lemma posts_addTracks (s : Service) (tracks : list Handle) :
  posts (concat (addTracks s <$> tracks)) = [].
Proof.
  induction tracks as [|t ts IH]; [done|].
  rewrite fmap_cons. simpl. rewrite posts_app, IH.
  unfold addTracks. by destruct (peerConnection s).
Qed.

End RealtimeFacts.

Arguments Realtime.postSdp : simpl never.
Arguments Realtime.freshN : simpl never.
Arguments Realtime.forEach : simpl never.
Arguments Realtime.posts : simpl never.
Arguments Js.or_lit : simpl never.

(** One step of [connect]: a sub-block with a known result, or a case
    split on what the environment answers. *)
Ltac connect_step :=
  first
    [ rewrite freshN_run
    | rewrite postSdp_run
    | erewrite (forEach_log _ Realtime.addTracks)
        by (let s := fresh in let w := fresh in
            intros ? s w; unfold Realtime.addTracks;
            destruct (Realtime.peerConnection s); simpl;
            [reflexivity | rewrite app_nil_r; by destruct w])
    | match goal with
      | |- context [match Realtime.sessionFetch ?env with _ => _ end] =>
          destruct (Realtime.sessionFetch env) as [?|[|] ? ?] eqn:?
      | |- context [match Realtime.sessionJson ?env ?b with _ => _ end] =>
          destruct (Realtime.sessionJson env b) as [?|?] eqn:?
      | |- context [if negb (Js.truthy ?x) then _ else _] =>
          destruct (Js.truthy x) eqn:?
      | |- context [match Realtime.getUserMedia ?env with _ => _ end] =>
          destruct (Realtime.getUserMedia env) as [?|?] eqn:?
      | |- context [match Realtime.createOffer ?env with _ => _ end] =>
          destruct (Realtime.createOffer env) as [?|?] eqn:?
      | |- context [match Realtime.setLocalDescription ?env with _ => _ end] =>
          destruct (Realtime.setLocalDescription env) as [?|[]] eqn:?
      | |- context [match Realtime.sdpFetch ?env ?k ?u ?o ?b with _ => _ end] =>
          destruct (Realtime.sdpFetch env k u o b) as [?|[|] ? ?] eqn:?
      | |- context [match Realtime.setRemoteDescription ?env ?a with _ => _ end] =>
          destruct (Realtime.setRemoteDescription env a) as [?|[]] eqn:?
      end ];
  run.

(** All the ways [connect] can go, each with its explicit result. *)
Ltac connect_cases :=
  unfold Realtime.connect, Realtime.try_catch, Realtime.createRealtimeSession,
    Realtime.createWebRTCConnection;
  run; repeat connect_step; rewrite <- ?app_assoc; simpl.

Ltac posts_norm :=
  repeat (rewrite ?posts_app, ?posts_cons, ?posts_addTracks, ?posts_nil in *;
          simpl in * );
  rewrite ?app_nil_r in *.


Ltac answers :=
  repeat match goal with
         | H : Realtime.sdpFetch _ _ _ _ _ = _ |- _ => rewrite H; clear H
         end;
  simpl;
  repeat match goal with
         | H : Js.truthy _ = _ |- _ => rewrite H
         end;
  simpl.

Ltac empty_bodies :=
  repeat match goal with
         | H : Js.truthy ?b = false |- _ => apply truthy_false in H; subst b
         end.


Section ConnectFacts.
Import Realtime.


Lemma connect_posts (env : Env) (s : Service) (w : World) :
  exists r s' w',
    connect env s w = (r, s', w')
    /\ (posts (log w') = posts (log w)
        \/ (exists url sdp,
              posts (log w') = posts (log w) ++ [PostSdp url sdp false]
              /\ refused (sdpFetch env (length (posts (log w))) url sdp false) = false)
        \/ (exists url sdp,
              posts (log w') = posts (log w) ++ [PostSdp url sdp false; PostSdp url sdp true]
              /\ refused (sdpFetch env (length (posts (log w))) url sdp false) = true
              /\ (refused (sdpFetch env (S (length (posts (log w)))) url sdp true) = true ->
                  forall err, setRemoteDescription env "" = inl err -> r = Threw err))).
Proof.
  connect_cases; eexists _, _, _; (split; [reflexivity|]); posts_norm;
    rewrite ?length_app, ?Nat.add_1_r in *; simpl in *;
    first
      [ by left
      | right; left; eexists _, _; split; [reflexivity|]; by answers
      | right; right; eexists _, _; split; [reflexivity|];
        split; [by answers|];
        intros Href err Herr; revert Href; answers; try discriminate;
        rewrite ?negb_true_iff; intros Href; empty_bodies; congruence ].
Qed.

(** C5: [connect] never sends more than two negotiation requests; when the
    first one (sent without the beta header) is refused - a status that is
    not ok, or an empty answer - exactly one more is sent, to the same url
    with the same offer and with the beta header; when that one is refused
    too and the browser does not take an empty answer, [connect] throws. *)
Theorem negotiation_retries_once (env : Env) (s : Service) (w : World) :
  exists r s' w',
    connect env s w = (r, s', w')
    /\ (length (posts (log w')) <= length (posts (log w)) + 2)%nat
    /\ forall url sdp rest,
        posts (log w') = posts (log w) ++ PostSdp url sdp false :: rest ->
        refused (sdpFetch env (length (posts (log w))) url sdp false) = true ->
        rest = [PostSdp url sdp true]
        /\ (refused (sdpFetch env (S (length (posts (log w)))) url sdp true) = true ->
            forall err, setRemoteDescription env "" = inl err -> r = Threw err).
Proof.
  destruct (connect_posts env s w) as (r & s' & w' & Hrun & Hposts).
  exists r, s', w'. split; [exact Hrun|].
  destruct Hposts as [Hp|[(url & sdp & Hp & Href)|(url & sdp & Hp & Href & Hthrow)]];
    rewrite Hp.
  - split; [lia|]. intros url sdp rest Heq.
    rewrite <- (app_nil_r (posts (log w))) in Heq at 1.
    apply app_inv_head in Heq. discriminate.
  - split; [rewrite length_app; simpl; lia|].
    intros url' sdp' rest Heq Href'. apply app_inv_head in Heq.
    injection Heq as <- <- <-. congruence.
  - split; [rewrite length_app; simpl; lia|].
    intros url' sdp' rest Heq Href'. apply app_inv_head in Heq.
    injection Heq as <- <- <-. split; [reflexivity | exact Hthrow].
Qed.

Lemma negotiation_retries_once_witness :
  exists s' w',
    connect Samples.refusing (new_service "42" None None) empty_world
    = (Threw "Failed to parse SessionDescription.", s', w')
    /\ posts (log w') = [PostSdp defaultSdpUrl "v=0" false;
                         PostSdp defaultSdpUrl "v=0" true].
Proof.
  destruct (negotiation_retries_once Samples.refusing
              (new_service "42" None None) empty_world)
    as (r & s' & w' & Hrun & _ & Hretry).
  assert (Hfirst : exists rest,
             posts (log w') = posts (log empty_world)
                              ++ PostSdp defaultSdpUrl "v=0" false :: rest).
  { vm_compute in Hrun. injection Hrun as <- <- <-. eexists. reflexivity. }
  destruct Hfirst as [rest Hfirst].
  destruct (Hretry _ _ _ Hfirst eq_refl) as [-> Hthrow].
  rewrite (Hthrow eq_refl _ eq_refl) in Hrun.
  exists s', w'. split; [exact Hrun | exact Hfirst].
Defined.

(** *** Resources *)

Lemma filter_all {A : Type} (P : A -> Prop) `{forall x, Decision (P x)} (l : list A) :
  Forall P l -> filter P l = l.
Proof.
  induction 1 as [|x l Hx Hl IH]; [done|].
  by rewrite filter_cons_True, IH.
Qed.

Lemma filter_none {A : Type} (P : A -> Prop) `{forall x, Decision (P x)} (l : list A) :
  Forall (fun x => ~ P x) l -> filter P l = [].
Proof.
  induction 1 as [|x l Hx Hl IH]; [done|].
  by rewrite filter_cons_False.
Qed.

Lemma account_no_release (owned : list Resource) (e : Effect) :
  releases e = [] -> account owned e = owned ++ acquires e.
Proof.
  intros He. unfold account. rewrite He. apply filter_all.
  apply Forall_forall. intros r _. apply not_elem_of_nil.
Qed.

Lemma fold_account_no_release (l : list Effect) (owned : list Resource) :
  Forall (fun e => releases e = []) l ->
  fold_left account l owned = owned ++ concat (acquires <$> l).
Proof.
  intros Hl. revert owned. induction Hl as [|e l He Hl IH]; intros owned; simpl.
  - by rewrite app_nil_r.
  - rewrite IH, account_no_release by done. by rewrite <- app_assoc.
Qed.

Lemma fold_account_release_only (l : list Effect) (owned : list Resource) :
  Forall (fun e => acquires e = []) l ->
  fold_left account l owned = filter (fun r => r ∉ concat (releases <$> l)) owned.
Proof.
  intros Hl. revert owned. induction Hl as [|e l He Hl IH]; intros owned; simpl.
  - symmetry. apply filter_all. apply Forall_forall. intros r _. apply not_elem_of_nil.
  - rewrite IH. unfold account. rewrite He, app_nil_r, list_filter_filter.
    apply list_filter_iff. intros r. rewrite not_elem_of_app. tauto.
Qed.

Lemma releases_stops (tracks : list Handle) :
  concat (releases <$> (StopTrack <$> tracks)) = Track <$> tracks.
Proof.
  induction tracks as [|t ts IH]; [done|].
  rewrite !fmap_cons. simpl. by rewrite IH.
Qed.

Lemma acquires_stops (tracks : list Handle) :
  Forall (fun e => acquires e = []) (StopTrack <$> tracks).
Proof. induction tracks as [|t ts IH]; [constructor|]. rewrite fmap_cons. by constructor. Qed.

Lemma released_by_teardown (s : Service) (r : Resource) :
  r ∈ concat (releases <$> (teardown s ++ [Callback OnDisconnect])) <-> r ∈ held s.
Proof.
  unfold teardown, held.
  rewrite !fmap_app, !concat_app, releases_stops.
  destruct (dataChannel s), (peerConnection s); simpl;
    rewrite ?app_nil_r, ?elem_of_cons; tauto.
Qed.

Lemma teardown_acquires_nothing (s : Service) :
  Forall (fun e => acquires e = []) (teardown s ++ [Callback OnDisconnect]).
Proof.
  unfold teardown. rewrite !Forall_app. repeat split.
  - destruct (dataChannel s); repeat constructor.
  - destruct (peerConnection s); repeat constructor.
  - apply acquires_stops.
  - repeat constructor.
Qed.

Lemma disconnect_releases_held (s : Service) (w : World) :
  live (log w ++ teardown s ++ [Callback OnDisconnect])
  = filter (fun r => r ∉ held s) (live (log w)).
Proof.
  unfold live. rewrite fold_left_app.
  rewrite fold_account_release_only by apply teardown_acquires_nothing.
  apply list_filter_iff. intros r. by rewrite released_by_teardown.
Qed.

Lemma addTracks_no_release (s : Service) (tracks : list Handle) :
  Forall (fun e => releases e = []) (concat (addTracks s <$> tracks)).
Proof.
  induction tracks as [|t ts IH]; [constructor|].
  rewrite fmap_cons. simpl. apply Forall_app. split; [|exact IH].
  unfold addTracks. destruct (peerConnection s); repeat constructor.
Qed.

Lemma addTracks_no_acquire (s : Service) (tracks : list Handle) :
  concat (acquires <$> concat (addTracks s <$> tracks)) = [].
Proof.
  induction tracks as [|t ts IH]; [done|].
  rewrite fmap_cons. simpl. rewrite fmap_app, concat_app, IH.
  unfold addTracks. by destruct (peerConnection s).
Qed.

Lemma connect_acquires (env : Env) (s : Service) (w : World) :
  exists r s' w' l,
    connect env s w = (r, s', w')
    /\ log w' = log w ++ l
    /\ Forall (fun e => releases e = []) l
    /\ (held s = [] -> concat (acquires <$> l) = held s').
Proof.
  connect_cases; eexists _, _, _, _; (split; [reflexivity|]);
   (split; [reflexivity|]); split.
  all: try (repeat first [ constructor; [reflexivity|]
                         | apply Forall_app; split; [apply addTracks_no_release|]
                         | constructor ]; fail).
  all: intros Hheld; simpl;
    rewrite ?fmap_app, ?concat_app, ?addTracks_no_acquire; simpl;
    rewrite ?app_nil_r;
    destruct s as [sid lang mdl [pc|] [dc|] [[|t ts]|] tok url fin par];
    try discriminate Hheld; reflexivity.
Qed.

(** C6, as the code has it: in every state [disconnect] returns normally,
    clears the three fields and releases every transport, channel and track
    they referred to; [connect] itself never closes or stops anything, also
    when it fails, so what it had allocated stays allocated and referenced
    by the fields, and a [disconnect] after it leaves nothing allocated. *)
Theorem close_releases_what_open_left :
  (forall (s : Service) (w : World),
      exists w',
        disconnect s w = (Returned tt, cleared s, w')
        /\ held (cleared s) = []
        /\ live (log w') = filter (fun r => r ∉ held s) (live (log w)))
  /\ (forall (env : Env) (sid : string) (lang mdl : option string),
        exists r s1 w1 w2,
          connect env (new_service sid lang mdl) empty_world = (r, s1, w1)
          /\ Forall (fun e => releases e = []) (log w1)
          /\ live (log w1) = held s1
          /\ disconnect s1 w1 = (Returned tt, cleared s1, w2)
          /\ live (log w2) = []).
Proof.
  split.
  - intros s w. rewrite disconnect_run. eexists. split; [reflexivity|].
    split; [reflexivity|]. simpl. apply disconnect_releases_held.
  - intros env sid lang mdl.
    destruct (connect_acquires env (new_service sid lang mdl) empty_world)
      as (r & s1 & w1 & l & Hrun & Hlog & Hkeep & Hacq).
    simpl in Hlog.
    assert (Hlive : live l = held s1).
    { unfold live. rewrite fold_account_no_release by exact Hkeep.
      simpl. by apply Hacq. }
    exists r, s1, w1, (mkWorld (nextHandle w1) (log w1 ++ teardown s1 ++ [Callback OnDisconnect])).
    split; [exact Hrun|]. split; [by rewrite Hlog|]. split; [by rewrite Hlog|].
    split; [apply disconnect_run|].
    simpl. rewrite disconnect_releases_held, Hlog, Hlive.
    apply filter_none. apply Forall_forall. intros x Hx Hnot. by apply Hnot.
Qed.

(** C6 as stated fails: when both negotiation requests are refused,
    [connect] throws with the transport, the channel and the microphone
    track still allocated, and nothing in its log closes or stops them. *)
Lemma failed_open_leaves_resources :
  exists s' w',
    connect Samples.refusing (new_service "42" None None) empty_world
    = (Threw "Failed to parse SessionDescription.", s', w')
    /\ live (log w') = [Transport 0%nat; Channel 1%nat; Track 2%nat]
    /\ micStream s' = Some [2%nat]
    /\ List.filter (fun e => isStopTrack e || isCloseChannel e || isCloseTransport e)
         (log w') = [].
Proof. eexists _, _. repeat split; reflexivity. Qed.

End ConnectFacts.

(** ** The workflow *)

Section WorkflowFacts.
Import Workflow.

Lemma autoAdvance_cascade (a : App) :
  activeStep (autoAdvance a) =
    if hasFinalized a then finalize
    else if hasRecordingData a || hasDocsReady a then record
    else setup.
Proof.
  unfold autoAdvance.
  destruct (hasFinalized a), (hasRecordingData a), (hasDocsReady a); reflexivity.
Qed.

Lemma nonBlank_cons (c : ascii) (rest : string) :
  nonBlank (String c rest) <-> Js.isWhiteSpace c = false \/ nonBlank rest.
Proof.
  split.
  - intros ([|p pre] & d & post & Heq & Hd).
    + rewrite append_nil_l in Heq. injection Heq as -> _. by left.
    + rewrite append_cons in Heq. injection Heq as _ ->. right. by exists pre, d, post.
  - intros [Hc|(pre & d & post & -> & Hd)].
    + by exists EmptyString, c, rest.
    + exists (String c pre), d, post. by rewrite append_cons.
Qed.

Lemma trimStart_blank (text : string) :
  Js.trimStart text = EmptyString <-> ~ nonBlank text.
Proof.
  induction text as [|c rest IH].
  - split; [|done]. intros _ ([|p pre] & d & post & Heq & _); discriminate Heq.
  - rewrite nonBlank_cons. simpl. destruct (Js.isWhiteSpace c).
    + rewrite IH. split; [intros Hrest [Hc|Hr]; [discriminate|by apply Hrest] | tauto].
    + split; [discriminate|]. intros Hno. exfalso. apply Hno. by left.
Qed.

(** [Boolean(text.trim())] holds exactly of the texts with a character that
    is not white space. *)
Lemma trim_truthy_nonBlank (text : string) :
  Js.truthy (Js.trim text) = true <-> nonBlank text.
Proof.
  rewrite truthy_true, trim_empty_iff, trimStart_blank.
  split; [|tauto]. intros Hnn.
  destruct (trimStart_head text) as [Hempty|(c & rest & Hhead & Hc)].
  - apply trimStart_blank in Hempty. by destruct Hnn.
  - clear Hnn. revert Hhead. induction text as [|d text IH]; simpl; [discriminate|].
    destruct (Js.isWhiteSpace d) eqn:Hd.
    + intros Hhead. apply nonBlank_cons. right. by apply IH.
    + intros _. apply nonBlank_cons. by left.
Qed.

Lemma trim_falsy_blank (text : string) :
  Js.truthy (Js.trim text) = false <-> ~ nonBlank text.
Proof.
  rewrite <- trim_truthy_nonBlank. by destruct (Js.truthy (Js.trim text)).
Qed.

Lemma existsb_doc_type (kind : string) (docs : list SessionDocument) :
  existsb (fun d => String.eqb (doc_type d) kind) docs = true
  <-> exists d, d ∈ docs /\ doc_type d = kind.
Proof.
  rewrite existsb_exists. split.
  - intros (d & Hin & Heq). exists d. split; [by apply list_elem_of_In|].
    by apply String.eqb_eq.
  - intros (d & Hin & Heq). exists d. split; [by apply list_elem_of_In|].
    by apply String.eqb_eq.
Qed.

(** The documents are ready when a user is signed in and the session has at
    least one JD document and at least one CV document. *)
Lemma hasDocsReady_iff (a : App) :
  hasDocsReady a = true
  <-> is_Some (currentUser a)
      /\ (exists d, d ∈ sessionDocs a /\ doc_type d = "JD")
      /\ (exists d, d ∈ sessionDocs a /\ doc_type d = "CV").
Proof.
  unfold hasDocsReady, hasSetup, hasJD, hasCV.
  rewrite !andb_true_iff, !bool_decide_eq_true, !existsb_doc_type.
  split; [tauto|]. intros (Hu & Hjd & Hcv). repeat split; try done.
  destruct Hjd as (d & Hd & _). unfold sessionDocs in Hd.
  destruct (session a); [done|]. by apply elem_of_nil in Hd.
Qed.

Lemma hasDocsReady_complete (a : App) :
  hasDocsReady a = true <-> documentsComplete a.
Proof.
  rewrite hasDocsReady_iff. unfold documentsComplete, sessionDocs. split.
  - intros (Hu & (jd & Hjd & Hjdt) & (cv & Hcv & Hcvt)). split; [exact Hu|].
    destruct (session a) as [s|]; [|by apply elem_of_nil in Hjd].
    destruct (documents s) as [docs|] eqn:Hdocs; [|by apply elem_of_nil in Hjd].
    exists s, docs. split; [done|]. split; [done|]. split; [by exists jd | by exists cv].
  - intros (Hu & s & docs & -> & Hdocs & Hjd & Hcv). rewrite Hdocs. done.
Qed.

Lemma hasDocsReady_incomplete (a : App) :
  hasDocsReady a = false <-> ~ documentsComplete a.
Proof.
  rewrite <- hasDocsReady_complete. by destruct (hasDocsReady a).
Qed.

(** C9, as the code has it: the step set by the auto-advance effect is the
    stage derived from the three facts as [App] takes them: [finalize] when
    the diarized transcript has a character that is not white space; else
    [record] when the live transcript has one, or a user is signed in and
    the open session holds a JD and a CV document; else [setup]. *)
Theorem autoAdvance_derives_step (a : App) (step : SessionStep) :
  activeStep (autoAdvance a) = step <-> derivedStage a step.
Proof.
  rewrite autoAdvance_cascade.
  destruct (hasFinalized a) eqn:Hf; [|destruct (hasRecordingData a) eqn:Hr;
                                       [|destruct (hasDocsReady a) eqn:Hd]]; simpl.
  - apply trim_truthy_nonBlank in Hf. split.
    + intros <-. by constructor.
    + intros Hstage. by destruct Hstage.
  - apply trim_falsy_blank in Hf. apply trim_truthy_nonBlank in Hr. split.
    + intros <-. constructor; [done | by left].
    + intros Hstage. by destruct Hstage.
  - apply trim_falsy_blank in Hf, Hr. apply hasDocsReady_complete in Hd. split.
    + intros <-. constructor; [done | by right].
    + intros Hstage. by destruct Hstage.
  - apply trim_falsy_blank in Hf, Hr. apply hasDocsReady_incomplete in Hd. split.
    + intros <-. by constructor.
    + intros Hstage. destruct Hstage as [Hn|_ [Hn|Hn]|]; done.
Qed.

(** C9 as stated fails: a diarized transcript of one space is not empty, yet
    the step is [record] and not [finalize]; a live transcript of one space
    is not empty, yet without documents the step is [setup]; and with a JD
    and a CV uploaded but nobody signed in the step is [setup]. *)
Lemma nonempty_facts_do_not_derive_the_step :
  activeStep
    (autoAdvance (mkApp (Some "recruiter@example.org"%string) (Some Samples.session7)
                        " " "" setup false "" None 0 []))
  = record
  /\ activeStep
       (autoAdvance (mkApp (Some "recruiter@example.org"%string) None
                           "" " " record false "" None 0 []))
     = setup
  /\ activeStep
       (autoAdvance (mkApp None (Some Samples.session7) "" "" record false "" None 0 []))
     = setup.
Proof. repeat split; by vm_compute. Qed.

(** *** The action invoker *)

Lemma begin_empty (now now' : Z) (button : ActionButton) (a : App) (s : InterviewSession) :
  session a = Some s ->
  Js.trim (realtimeTranscript a) = "" ->
  executeAction_begin now now' button a
  = (setActionError (Some "Transcript is empty."%string) a, EmptyTranscript).
Proof.
  intros Hs He. unfold executeAction_begin, executeAction_of. by rewrite Hs, He.
Qed.


Lemma begin_accepted (now now' : Z) (button : ActionButton) (a : App) (s : InterviewSession) :
  session a = Some s ->
  Js.trim (realtimeTranscript a) <> "" ->
  actionCooldownUntil a <= now ->
  executeAction_begin now now' button a
  = (pending now' a,
     Awaiting {| request_session := session_id s;
                 action_button := button;
                 client_transcript := realtimeTranscript a |}).
Proof.
  intros Hs Hne Hge. unfold executeAction_begin, executeAction_of. rewrite Hs.
  apply truthy_true in Hne. rewrite Hne. simpl.
  apply Z.ltb_ge in Hge. by rewrite Hge.
Qed.




(** The reset timer of an accepted call cannot fire before the deadline the
    call has set, and a call made once it has fired is accepted. *)
Lemma own_reset_timer (now' t : Z) (a : App) :
  (t < now' + ACTION_COOLDOWN_MS ->
   resetTimerFires (length (resetTimers a)) t (pending now' a) = None)
  /\ (now' + ACTION_COOLDOWN_MS <= t ->
      resetTimerFires (length (resetTimers a)) t (pending now' a)
      = Some (setResetTimers (resetTimers a) (setActionCooldownUntil 0 (pending now' a)))).
Proof.
  unfold resetTimerFires. simpl.
  rewrite lookup_app_r, Nat.sub_diag by lia. simpl. split; intros Ht.
  - apply Z.leb_gt in Ht. by rewrite Ht.
  - apply Z.leb_le in Ht. rewrite Ht. do 2 f_equal.
    rewrite delete_middle. by rewrite app_nil_r.
Qed.

(** Whichever reset timer fires, its callback writes 0 over the deadline
    that is stored at that moment. *)
Lemma reset_timer_clears_deadline (i : nat) (t : Z) (a a' : App) :
  resetTimerFires i t a = Some a' ->
  actionCooldownUntil a' = 0
  /\ exists due, resetTimers a !! i = Some due /\ due <= t.
Proof.
  unfold resetTimerFires. destruct (resetTimers a !! i) as [due|]; [|discriminate].
  destruct (due <=? t) eqn:Hdue; [|discriminate].
  intros [= <-]. split; [reflexivity|]. exists due. split; [reflexivity|].
  by apply Z.leb_le.
Qed.





End WorkflowFacts.

(** ** The citation list *)

Section CitationFacts.
Import Citations.

Lemma digitsPrefix_split (s : string) :
  s = (digitsPrefix s).1 +:+ (digitsPrefix s).2
  /\ allDigits (digitsPrefix s).1 = true.
Proof.
  induction s as [|c s [IH1 IH2]]; [done|]. simpl.
  destruct (isDigit c) eqn:Hc; [|done].
  destruct (digitsPrefix s) as [ds after]. simpl in *.
  rewrite append_cons, <- IH1, Hc, IH2. done.
Qed.

Lemma digitsPrefix_app (ds post : string) :
  allDigits ds = true ->
  digitsPrefix (ds +:+ "]" +:+ post) = (ds, "]" +:+ post).
Proof.
  induction ds as [|c ds IH]; intros Hds; [reflexivity|].
  simpl in Hds. apply andb_true_iff in Hds as [Hc Hds].
  rewrite append_cons. simpl. by rewrite Hc, (IH Hds).
Qed.

Lemma matchAt_Some (s ds : string) (len : nat) :
  matchAt s = Some (ds, len) ->
  ds <> "" /\ allDigits ds = true
  /\ len = (String.length ds + 2)%nat
  /\ exists post, s = "[" +:+ ds +:+ "]" +:+ post.
Proof.
  unfold matchAt. destruct s as [|c rest]; [discriminate|].
  destruct (decide (c = "["%char)) as [->|Hc].
  - destruct (digitsPrefix_split rest) as [Hsplit Hall].
    destruct (digitsPrefix rest) as [[|d ds'] after]; [discriminate|].
    simpl in *. destruct after as [|b post]; [discriminate|].
    destruct (decide (b = "]"%char)) as [->|Hb].
    + intros [= <- <-]. repeat split; [discriminate | exact Hall |].
      exists post. by rewrite Hsplit.
    + intros H. exfalso. revert H.
      destruct b as [[] [] [] [] [] [] [] []]; try discriminate; by destruct Hb.
  - intros H. exfalso. revert H.
    destruct c as [[] [] [] [] [] [] [] []]; try discriminate; by destruct Hc.
Qed.

Lemma matchAt_marker (ds post : string) :
  ds <> "" -> allDigits ds = true ->
  matchAt ("[" +:+ ds +:+ "]" +:+ post) = Some (ds, (String.length ds + 2)%nat).
Proof.
  intros Hne Hall. rewrite append_cons, append_nil_l. unfold matchAt.
  rewrite (digitsPrefix_app ds post Hall).
  destruct ds as [|d ds]; [done|]. reflexivity.
Qed.

Lemma marker_cons (c : ascii) (ds rest : string) :
  marker ds rest -> marker ds (String c rest).
Proof.
  intros (Hne & Hall & pre & post & ->). repeat split; [done..|].
  exists (String c pre), post. by rewrite append_cons.
Qed.

Lemma marker_inv (c : ascii) (ds rest : string) :
  marker ds (String c rest) ->
  (c = "["%char /\ exists post, rest = ds +:+ "]" +:+ post) \/ marker ds rest.
Proof.
  intros (Hne & Hall & pre & post & Heq). destruct pre as [|p pre].
  - left. rewrite append_nil_l, append_cons, append_nil_l in Heq.
    injection Heq as -> ->. split; [done|]. by exists post.
  - right. rewrite append_cons in Heq. injection Heq as -> ->.
    repeat split; [done..|]. by exists pre, post.
Qed.

Lemma marker_empty (ds : string) : ~ marker ds "".
Proof.
  intros (_ & _ & pre & post & Heq). symmetry in Heq.
  apply append_eq_empty in Heq as [_ Heq]. discriminate Heq.
Qed.

Lemma execAll_skip (c : ascii) (rest : string) (k : nat) :
  execAll (S k) (String c rest) = execAll k rest.
Proof. reflexivity. Qed.

Lemma execAll_here (c : ascii) (rest : string) :
  execAll 0 (String c rest)
  = match matchAt (String c rest) with
    | Some (ds, len) => ds :: execAll (len - 1) rest
    | None => execAll 0 rest
    end.
Proof. reflexivity. Qed.

Lemma execAll_sound (s : string) (k : nat) (ds : string) :
  ds ∈ execAll k s -> marker ds s.
Proof.
  revert k. induction s as [|c rest IH]; intros k.
  - intros H. by apply elem_of_nil in H.
  - destruct k as [|k].
    + rewrite execAll_here.
      destruct (matchAt (String c rest)) as [[ds' len]|] eqn:Hm.
      * intros [->|H]%elem_of_cons; [|by eapply marker_cons, IH].
        destruct (matchAt_Some _ _ _ Hm) as (Hne & Hall & _ & post & Hs).
        repeat split; [done..|]. exists ""%string, post. by rewrite append_nil_l.
      * intros H. by eapply marker_cons, IH.
    + rewrite execAll_skip. intros H. by eapply marker_cons, IH.
Qed.

Lemma digit_not_bracket (c : ascii) : isDigit c = true -> c <> "["%char.
Proof. intros Hc ->. discriminate Hc. Qed.

Lemma clear_digits (ds post : string) :
  allDigits ds = true -> clear (String.length ds + 1) (ds +:+ "]" +:+ post).
Proof.
  induction ds as [|c ds IH]; intros Hall.
  - simpl. split; [discriminate | done].
  - simpl in Hall. apply andb_true_iff in Hall as [Hc Hall].
    rewrite append_cons. simpl. split; [by apply digit_not_bracket | by apply IH].
Qed.

Lemma clear_0 (s : string) : clear 0 s.
Proof. by destruct s. Qed.

Lemma execAll_complete (s : string) (k : nat) (ds : string) :
  clear k s -> marker ds s -> ds ∈ execAll k s.
Proof.
  revert k. induction s as [|c rest IH]; intros k Hclear Hmark.
  - by apply marker_empty in Hmark.
  - pose proof Hmark as (Hne & Hall & _).
    apply marker_inv in Hmark as [[-> [post ->]]|Hrest].
    + destruct k as [|k]; [|simpl in Hclear; by destruct Hclear as [[] _]].
      rewrite execAll_here.
      pose proof (matchAt_marker ds post Hne Hall) as Hm.
      rewrite append_cons, append_nil_l in Hm. rewrite Hm. apply elem_of_cons. by left.
    + destruct k as [|k].
      * rewrite execAll_here.
        destruct (matchAt (String c rest)) as [[ds' len]|] eqn:Hm.
        -- destruct (matchAt_Some _ _ _ Hm) as (_ & Hall' & -> & post & Hs).
           rewrite append_cons, append_nil_l in Hs. injection Hs as -> ->.
           apply elem_of_cons. right. apply IH; [|exact Hrest].
           replace (String.length ds' + 2 - 1)%nat with (String.length ds' + 1)%nat by lia.
           by apply clear_digits.
        -- apply IH; [apply clear_0 | exact Hrest].
      * rewrite execAll_skip. simpl in Hclear. apply IH; [by destruct Hclear | exact Hrest].
Qed.

Lemma cited_markers (ragAnswer : string) (x : JsNumber) :
  x ∈ cited ragAnswer <-> exists ds, marker ds ragAnswer /\ Number ds = x.
Proof.
  unfold cited. rewrite elem_of_list_to_set, list_elem_of_fmap. split.
  - intros (ds & -> & Hin). exists ds. split; [by eapply execAll_sound | done].
  - intros (ds & Hmark & <-). exists ds. split; [done|].
    apply execAll_complete; [apply clear_0 | done].
Qed.

(** *** [Number] on digits *)

Lemma toDouble_exact (n : Z) : n <= 2 ^ 53 -> toDouble n = Finite n.
Proof.
  intros Hn. unfold toDouble. destruct (n <? 2 ^ 53) eqn:Hlt; [reflexivity|].
  apply Z.ltb_ge in Hlt. assert (n = 2 ^ 53) as -> by lia. by vm_compute.
Qed.

(** From 2^53 on the result is [Infinity] or a double of at least 2^53
    within half a unit in the last place of the integer. *)
Lemma toDouble_rounds (n : Z) :
  2 ^ 53 <= n ->
  toDouble n = Infinity
  \/ exists d, toDouble n = Finite d
               /\ 2 ^ 53 <= d
               /\ 2 * Z.abs (d - n) <= 2 ^ (Z.log2 n - 52).
Proof.
  intros Hn. unfold toDouble.
  destruct (n <? 2 ^ 53) eqn:Hlt; [apply Z.ltb_lt in Hlt; lia|]. clear Hlt.
  assert (Hpos : 0 < n) by (pose proof (Z.pow_pos_nonneg 2 53); lia).
  assert (Hlog : 53 <= Z.log2 n).
  { rewrite <- (Z.log2_pow2 53) by lia. by apply Z.log2_le_mono. }
  destruct (Z.log2_spec n Hpos) as [Hlow _].
  set (e := Z.log2 n - 52) in *.
  assert (He : 1 <= e) by (unfold e; lia).
  assert (Hsplit : 2 ^ Z.log2 n = 2 ^ 52 * 2 ^ e).
  { unfold e. rewrite <- Z.pow_add_r by lia. f_equal. lia. }
  assert (Htwice : 2 ^ e = 2 * 2 ^ (e - 1)).
  { rewrite <- Z.pow_succ_r by lia. f_equal. lia. }
  assert (Hunit : 0 < 2 ^ (e - 1)) by (apply Z.pow_pos_nonneg; lia).
  pose proof (Z.div_mod n (2 ^ e) ltac:(lia)) as Hdiv.
  pose proof (Z.mod_pos_bound n (2 ^ e) ltac:(lia)) as Hmod.
  assert (Hq : 2 ^ 52 <= n / 2 ^ e).
  { apply Z.div_le_lower_bound; lia. }
  set (q := n / 2 ^ e) in *. set (r := n mod 2 ^ e) in *.
  set (unit := 2 ^ e) in *. set (half := 2 ^ (e - 1)) in *.
  assert (Hlead : 2 ^ 53 <= q * unit).
  { change (2 ^ 53) with (2 ^ 52 * 2). apply Z.mul_le_mono_nonneg; lia. }
  rewrite (Z.mul_comm unit q) in Hdiv.
  destruct ((half <? r) || ((r =? half) && Z.odd q)) eqn:Hup.
  - assert (Hr : half <= r).
    { apply orb_true_iff in Hup as [Hup|Hup].
      - apply Z.ltb_lt in Hup. lia.
      - apply andb_true_iff in Hup as [Hup _]. apply Z.eqb_eq in Hup. lia. }
    destruct (2 ^ 1024 <=? (q + 1) * unit); [by left|]. right.
    exists ((q + 1) * unit). split; [reflexivity|].
    rewrite Z.mul_add_distr_r. split; lia.
  - assert (Hr : r <= half).
    { apply orb_false_iff in Hup as [Hup _]. apply Z.ltb_ge in Hup. lia. }
    destruct (2 ^ 1024 <=? q * unit); [by left|]. right.
    exists (q * unit). split; [reflexivity|]. split; lia.
Qed.

Lemma cited_below_2_53 (ragAnswer : string) (n : Z) :
  n < 2 ^ 53 ->
  Finite n ∈ cited ragAnswer <-> exists ds, marker ds ragAnswer /\ exactValue ds = n.
Proof.
  intros Hn. rewrite cited_markers. split.
  - intros (ds & Hmark & Hnum). exists ds. split; [exact Hmark|].
    unfold Number in Hnum.
    destruct (Z.le_gt_cases (2 ^ 53) (exactValue ds)) as [Hbig|Hsmall].
    + destruct (toDouble_rounds _ Hbig) as [Hinf|(d & Hd & Hge & _)].
      * rewrite Hinf in Hnum. discriminate Hnum.
      * rewrite Hd in Hnum. injection Hnum as ->. lia.
    + rewrite toDouble_exact in Hnum by lia. by injection Hnum.
  - intros (ds & Hmark & <-). exists ds. split; [exact Hmark|].
    unfold Number. apply toDouble_exact. lia.
Qed.

(** C4, as the code has it: every citation gets as display index its own
    index when it has one and otherwise its 1-based position; the set
    [cited] holds the numbers [Number] gives for the bracketed markers of
    the answer, which is the integer of the marker up to 2^53 and a double
    rounded from it beyond, so that below 2^53 the set holds exactly the
    integers that occur as markers; when the set is non-empty the list
    shown is the indexed citations whose display index is in it, in input
    order, and when it is empty the list shown is all the indexed
    citations. *)
Theorem citations_follow_markers (ragAnswer : string) (ragCitations : list RagCitation) :
  (length (withIndex ragCitations) = length ragCitations
   /\ forall i c,
       ragCitations !! i = Some c ->
       withIndex ragCitations !! i
       = Some {| citation := c;
                 _displayIndex := match index c with
                                  | Some explicit => explicit
                                  | None => Z.of_nat i + 1
                                  end |})
  /\ (forall x, x ∈ cited ragAnswer <-> exists ds, marker ds ragAnswer /\ Number ds = x)
  /\ (forall ds,
        (exactValue ds <= 2 ^ 53 -> Number ds = Finite (exactValue ds))
        /\ (2 ^ 53 <= exactValue ds ->
            Number ds = Infinity
            \/ exists d, Number ds = Finite d
                         /\ 2 ^ 53 <= d
                         /\ 2 * Z.abs (d - exactValue ds)
                            <= 2 ^ (Z.log2 (exactValue ds) - 52)))
  /\ (forall n, n < 2 ^ 53 ->
        Finite n ∈ cited ragAnswer
        <-> exists ds, marker ds ragAnswer /\ exactValue ds = n)
  /\ (cited ragAnswer <> ∅ ->
      filtered ragAnswer ragCitations
      = filter (fun c => Finite (_displayIndex c) ∈ cited ragAnswer)
               (withIndex ragCitations))
  /\ (cited ragAnswer = ∅ ->
      filtered ragAnswer ragCitations = withIndex ragCitations).
Proof.
  split; [split|split; [|split; [|split; [|split]]]].
  - apply length_imap.
  - intros i c Hc. unfold withIndex. rewrite list_lookup_imap, Hc. simpl.
    by destruct (index c).
  - apply cited_markers.
  - intros ds. split; [apply toDouble_exact | apply toDouble_rounds].
  - apply cited_below_2_53.
  - intros Hne. unfold filtered. rewrite bool_decide_eq_true_2; [done|].
    intros Hsize. apply size_empty_iff in Hsize. by apply leibniz_equiv in Hsize.
  - intros He. unfold filtered. rewrite bool_decide_eq_false_2; [done|].
    rewrite He. intros Hsize. by apply Hsize.
Qed.

Lemma citations_follow_markers_witness :
  filtered "See [1] and [3]" Samples.retrieved
  = [ {| citation := Samples.chunk "JD" "Five years of Go."; _displayIndex := 1 |};
      {| citation := Samples.chunk "transcript" "I led the migration."; _displayIndex := 3 |} ]
  /\ filtered "Nothing is cited here." Samples.retrieved = withIndex Samples.retrieved.
Proof.
  destruct (citations_follow_markers "See [1] and [3]" Samples.retrieved)
    as (_ & _ & _ & Hmarkers & Hsome & _).
  destruct (citations_follow_markers "Nothing is cited here." Samples.retrieved)
    as (_ & _ & _ & _ & _ & Hnone).
  assert (Hone : Finite 1 ∈ cited "See [1] and [3]").
  { apply Hmarkers; [by vm_compute|]. exists "1"%string. split; [|reflexivity].
    split; [discriminate|]. split; [reflexivity|].
    by exists "See "%string, " and [3]"%string. }
  assert (Hne : cited "See [1] and [3]" <> ∅).
  { intros Hempty. apply (not_elem_of_empty (C := gset JsNumber) (Finite 1)).
    rewrite <- Hempty. exact Hone. }
  split.
  - rewrite (Hsome Hne). by vm_compute.
  - apply Hnone. reflexivity.
Defined.

(** C4 as stated fails from 2^53 on.  The only marker of the answer is the
    integer 9007199254740993, no citation has that display index, and yet
    the citation with index 9007199254740992 is listed: [Number] rounds the
    marker to it. *)
Lemma marker_past_2_53_cites_its_neighbour :
  (forall ds, marker ds "As stated [9007199254740993]." ->
              exactValue ds = 9007199254740993)
  /\ Number "9007199254740993" = Finite 9007199254740992
  /\ filtered "As stated [9007199254740993]."
       [ {| source_type := "CV"; chunk_text := "Go since 2019.";
            index := Some 9007199254740992 |} ]
     = [ {| citation := {| source_type := "CV"; chunk_text := "Go since 2019.";
                           index := Some 9007199254740992 |};
            _displayIndex := 9007199254740992 |} ].
Proof.
  split; [|split; by vm_compute].
  intros ds Hmark.
  apply (execAll_complete _ 0%nat) in Hmark; [|apply clear_0].
  vm_compute in Hmark. apply list_elem_of_singleton in Hmark. by subst ds.
Qed.

End CitationFacts.

(** * Further properties *)

(** ** Opening and closing the realtime session *)

Section OpeningFacts.
Import Realtime Opening.

Lemma createWebRTCConnection_split (env : Env) (s : Service) (w : World) :
  createWebRTCConnection env s w
  = (_ ← createWebRTCConnection_begin; createWebRTCConnection_resume env) s w.
Proof.
  unfold createWebRTCConnection, createWebRTCConnection_begin,
    createWebRTCConnection_resume.
  run. destruct (Js.truthy (Js.or_lit (clientToken s) "")); reflexivity.
Qed.

Lemma emissions_addTracks (s : Service) (tracks : list Handle) :
  emissions (concat (addTracks s <$> tracks)) = [].
Proof.
  induction tracks as [|t ts IH]; [done|].
  rewrite fmap_cons. simpl. rewrite emissions_app, IH.
  unfold addTracks. by destruct (peerConnection s).
Qed.

Lemma addTracks_attached (s : Service) (pc : Handle) (tracks : list Handle) :
  peerConnection s = Some pc ->
  concat (addTracks s <$> tracks) = AddTrack pc <$> tracks.
Proof.
  intros Hpc. induction tracks as [|t ts IH]; [done|].
  rewrite !fmap_cons. simpl. rewrite IH. unfold addTracks. by rewrite Hpc.
Qed.

Lemma live_snoc (l : list Effect) (e : Effect) :
  live (l ++ [e]) = account (live l) e.
Proof. unfold live. by rewrite fold_left_app. Qed.

Lemma addTracks_none (s : Service) (tracks : list Handle) :
  peerConnection s = None -> concat (addTracks s <$> tracks) = [].
Proof.
  intros Hpc. induction tracks as [|t ts IH]; [done|].
  rewrite fmap_cons. simpl. rewrite IH. unfold addTracks. by rewrite Hpc.
Qed.

(** X1: when the mint does not grant a token, [connect] throws after the
    one session request, reports the error, and allocates nothing. *)
Theorem no_token_no_allocation (env : Env) (s : Service) (w : World) :
  tokenGranted env = false ->
  exists e s' w',
    connect env s w = (Threw e, s', w')
    /\ since w w' = [FetchSession (sessionId s) (language s) (model s);
                     Callback (OnError (Js.or_lit (Some e) "Failed to connect to realtime"))]
    /\ nextHandle w' = nextHandle w
    /\ held s' = held s.
Proof.
  unfold tokenGranted, minted. intros Hno. revert Hno.
  connect_cases;
    repeat match goal with
           | H : sessionFetch _ = _ |- _ => rewrite H; clear H
           | H : sessionJson _ _ = _ |- _ => rewrite H; clear H
           | H : Js.truthy _ = _ |- _ => rewrite H; clear H
           end;
    intros Hno; try discriminate Hno;
    eexists _, _, _; (split; [reflexivity|]); rewrite since_app; done.
Qed.

Lemma no_token_no_allocation_witness :
  exists s' w',
    connect MoreSamples.unauthorized (new_service "42" None None) empty_world
    = (Threw "Realtime session error: 401 Not authenticated", s', w')
    /\ live (log w') = [] /\ nextHandle w' = 0%nat.
Proof.
  destruct (no_token_no_allocation MoreSamples.unauthorized
              (new_service "42" None None) empty_world eq_refl)
    as (e & s' & w' & Hrun & Hlog & Hnext & _).
  assert (He : e = "Realtime session error: 401 Not authenticated"%string).
  { vm_compute in Hrun. by injection Hrun as <- _ _. }
  subst e. exists s', w'. split; [exact Hrun|]. split; [|exact Hnext].
  unfold since in Hlog. simpl in Hlog. rewrite drop_0 in Hlog. by rewrite Hlog.
Defined.

(** What [connect] reports through the callbacks. *)
Lemma connect_emissions (env : Env) (s : Service) (w : World) :
  exists r s' w' l,
    connect env s w = (r, s', w')
    /\ log w' = log w ++ l
    /\ emissions l
       = match r with
         | Returned _ => []
         | Threw e => [OnError (Js.or_lit (Some e) "Failed to connect to realtime")]
         end.
Proof.
  connect_cases; eexists _, _, _, _; (split; [reflexivity|]); (split; [reflexivity|]);
    simpl; rewrite ?emissions_app, ?emissions_addTracks; reflexivity.
Qed.

(** X2: [connect] calls [onError] exactly when it throws: once, as the last
    thing it does, with the message of the error it rethrows (or the
    default text when that message is empty); a [connect] that returns has
    made no callback at all. *)
Theorem onError_iff_connect_throws (env : Env) (s : Service) (w : World) :
  exists r s' w' l,
    connect env s w = (r, s', w')
    /\ log w' = log w ++ l
    /\ match r with
       | Returned _ => emissions l = []
       | Threw e =>
           emissions l = [OnError (Js.or_lit (Some e) "Failed to connect to realtime")]
           /\ last l
              = Some (Callback (OnError (Js.or_lit (Some e) "Failed to connect to realtime")))
       end.
Proof.
  connect_cases; eexists _, _, _, _; (split; [reflexivity|]); (split; [reflexivity|]);
    try split; simpl;
    rewrite ?emissions_app, ?emissions_addTracks, ?last_cons, ?last_app; reflexivity.
Qed.

Ltac use_mint :=
  unfold sdpUrlOf, offerOf, minted;
  repeat match goal with
         | H : sessionFetch _ = _ |- _ => rewrite H; clear H
         | H : sessionJson _ _ = _ |- _ => rewrite H; clear H
         | H : createOffer _ = _ |- _ => rewrite H; clear H
         end.

(** X3: every negotiation request of [connect] goes to the url of the mint
    response when that is a non-empty string and to the default url
    otherwise, and carries the local offer; the retry repeats both. *)
Theorem negotiation_requests_target (env : Env) (s : Service) (w : World) :
  exists r s' w',
    connect env s w = (r, s', w')
    /\ (posts (since w w') = []
        \/ posts (since w w') = [PostSdp (sdpUrlOf env) (offerOf env) false]
        \/ posts (since w w') = [PostSdp (sdpUrlOf env) (offerOf env) false;
                                 PostSdp (sdpUrlOf env) (offerOf env) true]).
Proof.
  connect_cases; eexists _, _, _; (split; [reflexivity|]); rewrite since_app;
    posts_norm; use_mint; tauto.
Qed.

(** X4: a [connect] that returns has, in this order, created the peer
    connection and on it the data channel, acquired the microphone, attached
    every track of the stream to the peer connection, created and set the
    offer, sent one or two negotiation requests and applied an answer the
    browser accepted; the three fields refer to what it created. *)
Theorem connect_success_order (env : Env) (s s' : Service) (w w' : World) :
  connect env s w = (Returned tt, s', w') ->
  exists tracks requests answer,
    let pc := nextHandle w in
    let dc := S (nextHandle w) in
    since w w'
    = [FetchSession (sessionId s) (language s) (model s);
       NewPeerConnection pc; CreateDataChannel pc dc; GetUserMedia tracks]
      ++ (AddTrack pc <$> tracks)
      ++ [CreateOffer pc; SetLocalDescription pc]
      ++ requests
      ++ [SetRemoteDescription pc answer]
    /\ (requests = [PostSdp (sdpUrlOf env) (offerOf env) false]
        \/ requests = [PostSdp (sdpUrlOf env) (offerOf env) false;
                       PostSdp (sdpUrlOf env) (offerOf env) true])
    /\ setRemoteDescription env answer = inr tt
    /\ NoDup (pc :: dc :: tracks)
    /\ peerConnection s' = Some pc
    /\ dataChannel s' = Some dc
    /\ micStream s' = Some tracks.
Proof.
  intros Hrun. revert Hrun.
  connect_cases; intros Hrun; try discriminate Hrun; injection Hrun as <- <-;
    rewrite since_app;
    erewrite addTracks_attached by reflexivity;
    first [ eexists (seq (S (S (nextHandle w))) _), [_], _; split; [reflexivity|]
          | eexists (seq (S (S (nextHandle w))) _), [_; _], _; split; [reflexivity|] ];
    (split; [use_mint; tauto|]);
    (split; [eassumption|]);
    (split; [exact (NoDup_seq (nextHandle w) (S (S _)))|]);
    done.
Qed.

Lemma connect_success_order_witness :
  exists s' w' tracks,
    connect MoreSamples.granting (new_service "42" None None) empty_world
    = (Returned tt, s', w')
    /\ micStream s' = Some tracks
    /\ NoDup (0%nat :: 1%nat :: tracks)
    /\ exists requests answer,
        since empty_world w'
        = [FetchSession "42" (Some "en"%string) None;
           NewPeerConnection 0%nat; CreateDataChannel 0%nat 1%nat; GetUserMedia tracks]
          ++ (AddTrack 0%nat <$> tracks)
          ++ [CreateOffer 0%nat; SetLocalDescription 0%nat]
          ++ requests ++ [SetRemoteDescription 0%nat answer].
Proof.
  eexists _, _.
  assert (Hrun : connect MoreSamples.granting (new_service "42" None None) empty_world
                 = (Returned tt, _, _)) by reflexivity.
  destruct (connect_success_order _ _ _ _ _ Hrun)
    as (tracks & requests & answer & Hlog & _ & _ & Hnodup & _ & _ & Hmic).
  exists tracks. split; [exact Hrun|]. split; [exact Hmic|]. split; [exact Hnodup|].
  exists requests, answer. exact Hlog.
Defined.

(** X5: a second [disconnect] finds the three fields cleared: it closes and
    stops nothing, leaves the fields as they are, and calls [onDisconnect]
    once more. *)
Theorem disconnect_twice (s : Service) (w : World) :
  exists s1 w1 w2,
    disconnect s w = (Returned tt, s1, w1)
    /\ disconnect s1 w1 = (Returned tt, s1, w2)
    /\ since w1 w2 = [Callback OnDisconnect]
    /\ live (log w2) = live (log w1).
Proof.
  rewrite disconnect_run. eexists _, _, _. split; [reflexivity|].
  rewrite disconnect_run. split; [reflexivity|].
  rewrite since_app. split; [reflexivity|].
  simpl. rewrite (app_assoc (log w)).
  unfold live at 1. rewrite fold_left_app. simpl.
  rewrite account_no_release by reflexivity. simpl. by rewrite app_nil_r.
Qed.

(** X6: stopping in the middle of opening.  When [disconnect] runs while
    [createWebRTCConnection] waits for the microphone, the resumed function
    still stores the stream it is given, attaches nothing, and then throws
    on the cleared peer connection: the tracks of the stream stay running
    and [micStream] refers to them. *)
Theorem disconnect_while_waiting_for_microphone
    (env : Env) (n : nat) (s : Service) (w : World) :
  Js.truthy (Js.or_lit (clientToken s) "") = true ->
  getUserMedia env = inr n ->
  createWebRTCConnection env s w
  = (_ ← createWebRTCConnection_begin; createWebRTCConnection_resume env) s w
  /\ exists s1 w1 s2 w2 s3 w3,
    createWebRTCConnection_begin s w = (Returned tt, s1, w1)
    /\ disconnect s1 w1 = (Returned tt, s2, w2)
    /\ createWebRTCConnection_resume env s2 w2
       = (Threw "Cannot read properties of null", s3, w3)
    /\ since w2 w3 = [GetUserMedia (seq (nextHandle w2) n)]
    /\ micStream s3 = Some (seq (nextHandle w2) n)
    /\ peerConnection s3 = None
    /\ live (log w3)
       = filter (fun r => r ∉ held s1) (live (log w1)) ++ (Track <$> seq (nextHandle w2) n).
Proof.
  intros Htoken Hmedia. split; [apply createWebRTCConnection_split|].
  unfold createWebRTCConnection_begin. run. rewrite Htoken. simpl.
  eexists _, _, _, _. eexists _, _. split; [reflexivity|].
  rewrite disconnect_run. split; [reflexivity|].
  unfold createWebRTCConnection_resume. run. rewrite Hmedia. run.
  rewrite freshN_run. simpl.
  erewrite (forEach_log _ addTracks)
    by (let s := fresh in let w := fresh in
        intros ? s w; unfold addTracks; destruct (peerConnection s); simpl;
        [reflexivity | rewrite app_nil_r; by destruct w]).
  rewrite addTracks_none by reflexivity.
  simpl. split; [reflexivity|].
  rewrite app_nil_r.
  split; [by rewrite since_app|]. split; [reflexivity|]. split; [reflexivity|].
  simpl log. rewrite live_snoc, account_no_release by reflexivity. simpl acquires.
  f_equal. exact (disconnect_releases_held
                    (set_dataChannel (Some (S (nextHandle w)))
                       (set_peerConnection (Some (nextHandle w)) s))
                    (mkWorld (S (S (nextHandle w)))
                       ((log w ++ [NewPeerConnection (nextHandle w)])
                          ++ [CreateDataChannel (nextHandle w) (S (nextHandle w))]))).
Qed.

End OpeningFacts.

(** ** The accumulator over a stream *)

Section AccumulatorFacts.
Import Realtime Opening.

Lemma handleMessages_cons (m : Message) (ms : list Message) (s : Service) (w : World) :
  handleMessages (m :: ms) s w
  = match handleMessage m s w with
    | (Returned _, s', w') => handleMessages ms s' w'
    | (Threw e, s', w') => (Threw e, s', w')
    end.
Proof. reflexivity. Qed.

Lemma finalUtterances_cons (m : Message) (ms : list Message) :
  omap finalUtteranceOf (m :: ms)
  = match finalUtteranceOf m with
    | Some u => u :: omap finalUtteranceOf ms
    | None => omap finalUtteranceOf ms
    end.
Proof. reflexivity. Qed.

Lemma handleMessages_nil (s : Service) (w : World) :
  handleMessages [] s w = (Returned tt, s, w).
Proof. reflexivity. Qed.

Lemma appendUtterance_extends (final utterance : string) :
  exists suffix, appendUtterance final utterance = final +:+ suffix.
Proof.
  unfold appendUtterance. destruct final as [|c final]; simpl.
  - by exists utterance.
  - by exists (Js.LF +:+ utterance).
Qed.

(** X7: [finalText] only grows: whatever messages arrive, the text before
    them is a prefix of the text after them, and it is unchanged when none
    of them is a completion event with text. *)
Theorem finalText_only_grows (messages : list Message) (s : Service) (w : World) :
  exists s' w' suffix,
    handleMessages messages s w = (Returned tt, s', w')
    /\ finalText s' = finalText s +:+ suffix
    /\ (omap finalUtteranceOf messages = [] -> suffix = "").
Proof.
  revert s w. induction messages as [|m ms IH]; intros s w.
  - exists s, w, ""%string. rewrite handleMessages_nil, append_empty_r. done.
  - rewrite handleMessages_cons, handleMessage_eventOf.
    rewrite finalUtterances_cons. unfold finalUtteranceOf at 1.
    destruct (eventOf m) as [[t|t]|] eqn:Ev.
    + destruct (IH (set_partialText (partialText s +:+ t) s)
                  (mkWorld (nextHandle w)
                     (log w ++ [Callback (OnTranscript
                                            (finalText s +:+ (partialText s +:+ t)) false)])))
        as (s' & w' & suffix & Hrun & Hfinal & Hnone).
      exists s', w', suffix. done.
    + destruct (IH (set_partialText "" (set_finalText (appendUtterance (finalText s) t) s))
                  (mkWorld (nextHandle w)
                     (log w ++ [Callback (OnFinalUtterance t);
                                Callback (OnTranscript (appendUtterance (finalText s) t)
                                                       true)])))
        as (s' & w' & suffix & Hrun & Hfinal & Hnone).
      destruct (appendUtterance_extends (finalText s) t) as [grown Hgrown].
      exists s', w', (grown +:+ suffix). split; [exact Hrun|]. split; [|discriminate].
      simpl in Hfinal. by rewrite Hfinal, Hgrown, append_assoc.
    + destruct (IH s w) as (s' & w' & suffix & Hrun & Hfinal & Hnone).
      exists s', w', suffix. done.
Qed.

(** X8: while only delta events arrive, [finalText] stays, [partialText]
    collects the deltas in order, every callback is a transcript that is not
    final, one per message, and the last one shows [finalText] followed by
    everything collected. *)
Theorem deltas_accumulate (messages : list Message) (s : Service) (w : World) :
  Forall (fun m => isDeltaEvent m = true) messages ->
  exists l,
    handleMessages messages s w
    = (Returned tt, set_partialText (partialText s +:+ deltasOf messages) s,
       mkWorld (nextHandle w) (log w ++ l))
    /\ length l = length messages
    /\ Forall (fun e => exists t, e = Callback (OnTranscript t false)) l
    /\ (messages <> [] ->
        last l
        = Some (Callback (OnTranscript
                            (finalText s +:+ (partialText s +:+ deltasOf messages))
                            false))).
Proof.
  intros Hall. revert s w. induction Hall as [|m ms Hm Hms IH]; intros s w.
  - exists []. rewrite handleMessages_nil. simpl. rewrite append_empty_r, app_nil_r.
    split; [by destruct s, w|]. by repeat split.
  - rewrite handleMessages_cons, handleMessage_eventOf. unfold isDeltaEvent in Hm.
    assert (Hd : eventOf m = Some (PartialDelta (deltaOf m))).
    { unfold eventOf in *. destruct (isDeltaType (type m)).
      - by destruct (Js.truthy (deltaOf m)).
      - destruct (isCompletedType (type m)); [|done].
        by destruct (Js.truthy (transcriptOf m)). }
    rewrite Hd.
    destruct (IH (set_partialText (partialText s +:+ deltaOf m) s)
                (mkWorld (nextHandle w)
                   (log w ++ [Callback (OnTranscript
                                          (finalText s +:+ (partialText s +:+ deltaOf m))
                                          false)])))
      as (l & Hrun & Hlen & Hshape & Hlast).
    exists (Callback (OnTranscript (finalText s +:+ (partialText s +:+ deltaOf m)) false)
            :: l).
    rewrite Hrun. simpl. rewrite append_assoc, <- app_assoc. simpl.
    split; [by destruct s|]. split; [by rewrite Hlen|].
    split; [constructor; [by eexists|exact Hshape]|].
    intros _. destruct ms as [|m' ms].
    + destruct l; [|discriminate]. simpl. by rewrite append_empty_r.
    + rewrite last_cons, Hlast by discriminate. simpl. by rewrite append_assoc.
Qed.

End AccumulatorFacts.

Section StreamWitnesses.
Import Realtime Opening.

Lemma disconnect_while_waiting_for_microphone_witness :
  Js.truthy (Js.or_lit (clientToken Streams.minted_service) "") = true
  /\ getUserMedia MoreSamples.granting = inr 2%nat
  /\ exists s1 w1 s2 w2 s3 w3,
      createWebRTCConnection_begin Streams.minted_service empty_world = (Returned tt, s1, w1)
      /\ disconnect s1 w1 = (Returned tt, s2, w2)
      /\ createWebRTCConnection_resume MoreSamples.granting s2 w2
         = (Threw "Cannot read properties of null", s3, w3)
      /\ micStream s3 = Some [2%nat; 3%nat]
      /\ live (log w3) = [Track 2%nat; Track 3%nat].
Proof.
  split; [reflexivity|]. split; [reflexivity|].
  destruct (disconnect_while_waiting_for_microphone MoreSamples.granting 2
              Streams.minted_service empty_world eq_refl eq_refl)
    as (_ & s1 & w1 & s2 & w2 & s3 & w3 & Hbegin & Hclose & Hresume & _ & Hmic & _ & Hlive).
  exists s1, w1, s2, w2, s3, w3.
  vm_compute in Hbegin. injection Hbegin as <- <-.
  vm_compute in Hclose. injection Hclose as <- <-.
  split; [reflexivity|]. split; [reflexivity|]. split; [exact Hresume|].
  split; [exact Hmic|]. rewrite Hlive. reflexivity.
Defined.

Lemma deltas_accumulate_witness :
  exists l,
    handleMessages [Streams.hel; Streams.lo] Samples.connected Samples.connected_world
    = (Returned tt, set_partialText "worhello" Samples.connected,
       mkWorld 3%nat (log Samples.connected_world ++ l))
    /\ last l = Some (Callback (OnTranscript "helloworhello" false)).
Proof.
  destruct (deltas_accumulate [Streams.hel; Streams.lo]
              Samples.connected Samples.connected_world)
    as (l & Hrun & _ & _ & Hlast).
  { repeat constructor. }
  exists l. split; [exact Hrun|]. exact (Hlast ltac:(discriminate)).
Defined.

Lemma finalText_only_grows_witness :
  exists s' w' suffix,
    handleMessages [Streams.hel; Streams.lo] Samples.connected Samples.connected_world
    = (Returned tt, s', w')
    /\ finalText s' = "hello" +:+ suffix
    /\ suffix = EmptyString.
Proof.
  destruct (finalText_only_grows [Streams.hel; Streams.lo]
              Samples.connected Samples.connected_world)
    as (s' & w' & suffix & Hrun & Hfinal & Hnone).
  exists s', w', suffix. split; [exact Hrun|]. split; [exact Hfinal|].
  apply Hnone. reflexivity.
Defined.

End StreamWitnesses.

(** ** The recorder *)

Section RecorderFacts.
Import Realtime Recorder.
Context {P : Type}.


Lemma deliver_app (props : Props P) (l l' : list Effect) (st : Recorder * P) :
  deliver props (l ++ l') st = deliver props l' (deliver props l st).
Proof. unfold deliver. by rewrite emissions_app, fold_left_app. Qed.

Lemma deliver_silent (props : Props P) (l : list Effect) (st : Recorder * P) :
  emissions l = [] -> deliver props l st = st.
Proof. unfold deliver. by intros ->. Qed.

Lemma onmessage_run (env : Env) (raw : Frame) (s : Service) (w : World) :
  onmessage env raw s w
  = match messageOf env raw with
    | Some message =>
        handleMessage message s (mkWorld (nextHandle w) (log w ++ decoding env raw))
    | None => (Returned tt, s, mkWorld (nextHandle w) (log w ++ decoding env raw))
    end.
Proof.
  unfold onmessage, messageOf, frameText, decoding, try_catch, jsonParse, decode.
  destruct raw as [data|data]; run.
  - destruct (JSON_parse env data) as [err|message]; run; [reflexivity|].
    rewrite handleMessage_eventOf. by destruct (eventOf message) as [[t|t]|].
  - rewrite <- app_assoc. simpl.
    destruct (JSON_parse env (textDecode env data)) as [err|message]; run; [reflexivity|].
    rewrite handleMessage_eventOf. by destruct (eventOf message) as [[t|t]|].
Qed.

Lemma onmessages_cons (env : Env) (raw : Frame) (frames : list Frame)
    (s : Service) (w : World) :
  onmessages env (raw :: frames) s w
  = match onmessage env raw s w with
    | (Returned _, s', w') => onmessages env frames s' w'
    | (Threw e, s', w') => (Threw e, s', w')
    end.
Proof. reflexivity. Qed.

Lemma emissions_decoding (env : Env) (raw : Frame) : emissions (decoding env raw) = [].
Proof. by destruct raw. Qed.

Lemma eventsOf_cons (env : Env) (raw : Frame) (frames : list Frame) :
  eventsOf env (raw :: frames)
  = match messageOf env raw ≫= eventOf with
    | Some e => e :: eventsOf env frames
    | None => eventsOf env frames
    end.
Proof. reflexivity. Qed.

Lemma deliver_decoded (env : Env) (props : Props P) (raw : Frame) (cbs l : list Effect)
    (st : Recorder * P) :
  deliver props (decoding env raw ++ cbs ++ l) st
  = deliver props l (deliver props cbs st).
Proof.
  rewrite !deliver_app. by rewrite (deliver_silent _ (decoding env raw))
    by apply emissions_decoding.
Qed.

(** What a run of frames does to the service and to the hooks. *)
Lemma onmessages_shown (env : Env) (props : Props P) (frames : list Frame) :
  forall (s : Service) (w : World) (st : Recorder * P),
  exists s' l,
    onmessages env frames s w = (Returned tt, s', mkWorld (nextHandle w) (log w ++ l))
    /\ isRecording (deliver props l st).1 = isRecording st.1
    /\ error (deliver props l st).1 = error st.1
    /\ (eventsOf env frames = [] -> s' = s /\ deliver props l st = st)
    /\ (eventsOf env frames <> [] ->
        transcript (deliver props l st).1 = finalText s' +:+ partialText s').
Proof.
  induction frames as [|raw frames IH]; intros s w st.
  - exists s, []. rewrite app_nil_r. split; [by destruct w|]. done.
  - rewrite onmessages_cons, onmessage_run, eventsOf_cons.
    destruct (messageOf env raw) as [message|]; simpl;
      [rewrite handleMessage_eventOf; destruct (eventOf message) as [[t|t]|]; simpl|].
    + set (cbs := [Callback (OnTranscript (finalText s +:+ (partialText s +:+ t)) false)]).
      destruct (IH (set_partialText (partialText s +:+ t) s)
                  (mkWorld (nextHandle w) ((log w ++ decoding env raw) ++ cbs))
                  (deliver props cbs st))
        as (s' & l & Hrun & Hrec & Herr & Hquiet & Hshown).
      exists s', (decoding env raw ++ cbs ++ l). simpl in Hrun.
      rewrite Hrun, !app_assoc. split; [reflexivity|].
      rewrite <- !app_assoc, deliver_decoded.
      split; [exact Hrec|]. split; [exact Herr|]. split; [discriminate|].
      intros _. destruct (eventsOf env frames) as [|e es] eqn:Hes.
      * destruct Hquiet as [-> ->]; reflexivity.
      * by apply Hshown.
    + set (cbs := [Callback (OnFinalUtterance t);
                   Callback (OnTranscript (appendUtterance (finalText s) t) true)]).
      destruct (IH (set_partialText "" (set_finalText (appendUtterance (finalText s) t) s))
                  (mkWorld (nextHandle w) ((log w ++ decoding env raw) ++ cbs))
                  (deliver props cbs st))
        as (s' & l & Hrun & Hrec & Herr & Hquiet & Hshown).
      exists s', (decoding env raw ++ cbs ++ l). simpl in Hrun.
      rewrite Hrun, !app_assoc. split; [reflexivity|].
      rewrite <- !app_assoc, deliver_decoded.
      split; [exact Hrec|]. split; [exact Herr|]. split; [discriminate|].
      intros _. destruct (eventsOf env frames) as [|e es] eqn:Hes.
      * destruct Hquiet as [-> ->]; [reflexivity|]. simpl. by rewrite append_empty_r.
      * by apply Hshown.
    + destruct (IH s (mkWorld (nextHandle w) (log w ++ decoding env raw)) st)
        as (s' & l & Hrun & Hrec & Herr & Hquiet & Hshown).
      exists s', (decoding env raw ++ l). simpl in Hrun.
      rewrite Hrun, app_assoc. split; [reflexivity|].
      rewrite (deliver_decoded env props raw [] l). done.
    + destruct (IH s (mkWorld (nextHandle w) (log w ++ decoding env raw)) st)
        as (s' & l & Hrun & Hrec & Herr & Hquiet & Hshown).
      exists s', (decoding env raw ++ l). simpl in Hrun.
      rewrite Hrun, app_assoc. split; [reflexivity|].
      rewrite (deliver_decoded env props raw [] l). done.
Qed.

Lemma connect_delivered (env : Env) (props : Props P) (s : Service) (w : World)
    (st : Recorder * P) :
  exists r s' w',
    connect env s w = (r, s', w')
    /\ deliver props (since w w') st
       = match r with
         | Returned _ => st
         | Threw e =>
             (setError (Some (Js.or_lit (Some e) "Failed to connect to realtime")) st.1,
              st.2)
         end.
Proof.
  destruct (connect_emissions env s w) as (r & s' & w' & l & Hrun & Hlog & Hem).
  exists r, s', w'. split; [exact Hrun|].
  unfold since. rewrite Hlog, drop_app_length. unfold deliver.
  rewrite Hem. by destruct r as [[]|e].
Qed.

(** X9: frames that arrive while the component is mounted leave
    [isRecording] and [error] alone; when none of them carries a transcript
    event, the service, the hooks and the parent stay as they were;
    otherwise the transcript on display is [finalText] followed by
    [partialText] of the service, whatever was displayed before. *)
Theorem recorder_shows_accumulator (env : Env) (props : Props P) (frames : list Frame)
    (m : Mounted P) (s : Service) :
  serviceRef m = Some s ->
  exists s',
    serviceRef (arrive env props frames m) = Some s'
    /\ isRecording (hooks (arrive env props frames m)) = isRecording (hooks m)
    /\ error (hooks (arrive env props frames m)) = error (hooks m)
    /\ (eventsOf env frames = [] ->
        s' = s
        /\ hooks (arrive env props frames m) = hooks m
        /\ parent (arrive env props frames m) = parent m)
    /\ (eventsOf env frames <> [] ->
        transcript (hooks (arrive env props frames m))
        = finalText s' +:+ partialText s').
Proof.
  intros Href. unfold arrive. rewrite Href.
  destruct (onmessages_shown env props frames s (world m) (hooks m, parent m))
    as (s' & l & Hrun & Hrec & Herr & Hquiet & Hshown).
  rewrite Hrun, since_app. simpl. exists s'. split; [reflexivity|].
  split; [exact Hrec|]. split; [exact Herr|]. split; [|exact Hshown].
  intros Hnone. destruct (Hquiet Hnone) as [-> ->]. done.
Qed.

(** X10: [start] does nothing when the component is disabled or the session
    id is empty.  Otherwise it leaves the transcript alone and calls
    [onStartRecording]; when [connect] returns, [isRecording] is set and
    the error is cleared; when [connect] throws, [start] throws the same
    error, [isRecording] stays as it was and the error on display is the
    message [connect] reported. *)
Theorem start_outcome (env : Env) (props : Props P) (disabled : bool)
    (sessionId : string) (m : Mounted P) :
  (disabled || negb (Js.truthy sessionId) = true ->
   start env props disabled sessionId m = (Returned tt, m))
  /\ (disabled || negb (Js.truthy sessionId) = false ->
      exists result m',
        start env props disabled sessionId m = (result, m')
        /\ transcript (hooks m') = transcript (hooks m)
        /\ parent m' = call (onStartRecording props) (parent m)
        /\ match result with
           | Returned _ => isRecording (hooks m') = true /\ error (hooks m') = None
           | Threw e =>
               isRecording (hooks m') = isRecording (hooks m)
               /\ error (hooks m')
                  = Some (Js.or_lit (Some e) "Failed to connect to realtime")
               /\ exists s' w',
                   connect env (new_service sessionId (Some "en"%string) None) (world m)
                   = (Threw e, s', w')
           end).
Proof.
  unfold start. split; intros ->; [reflexivity|].
  destruct (connect_delivered env props (new_service sessionId (Some "en"%string) None)
              (world m)
              (setError None (hooks m), call (onStartRecording props) (parent m)))
    as (r & s' & w' & Hrun & Hst).
  rewrite Hrun, Hst. destruct r as [[]|e]; eexists _, _; (split; [reflexivity|]); simpl.
  - done.
  - repeat split. by exists s', w'.
Qed.

(** X26: [stop] on a component that has started closes what the service
    in [serviceRef] holds and nothing else, clears [isRecording], leaves
    the transcript and the error on display, and calls [onStopRecording];
    the service stays in [serviceRef] with its three fields cleared.
    Before any [start] it only clears the flag and calls the prop. *)
Theorem stop_releases_service (props : Props P) (m : Mounted P) :
  (forall s, serviceRef m = Some s ->
     exists w',
       stop props m
       = (Returned tt,
          mkMounted (setIsRecording false (hooks m)) (Some (cleared s))
                    (call (onStopRecording props) (parent m)) w')
       /\ since (world m) w' = teardown s ++ [Callback OnDisconnect]
       /\ live (log w') = filter (fun r => r ∉ held s) (live (log (world m))))
  /\ (serviceRef m = None ->
      stop props m
      = (Returned tt,
         mkMounted (setIsRecording false (hooks m)) None
                   (call (onStopRecording props) (parent m)) (world m))).
Proof.
  unfold stop. split; [|by intros ->].
  intros s ->. rewrite disconnect_run, since_app. eexists.
  unfold deliver. rewrite emissions_app.
  assert (Hquiet : emissions (teardown s) = []).
  { unfold teardown.
    destruct (dataChannel s), (peerConnection s), (micStream s) as [tracks|]; simpl;
      try reflexivity; induction tracks as [|t ts IH]; simpl; done. }
  rewrite Hquiet. simpl. split; [reflexivity|]. split; [by rewrite since_app|].
  apply disconnect_releases_held.
Qed.

End RecorderFacts.


Section RecorderWitnesses.
Import Realtime Recorder.

Lemma recorder_shows_accumulator_witness :
  exists s',
    serviceRef (arrive MoreSamples.granting mirroring
                  [TextFrame "{type:'ping'}";
                   TextFrame "{type:'transcription.delta',delta:'hel'}"] recording)
    = Some s'
    /\ transcript (hooks (arrive MoreSamples.granting mirroring
                            [TextFrame "{type:'ping'}";
                             TextFrame "{type:'transcription.delta',delta:'hel'}"]
                            recording))
       = finalText s' +:+ partialText s'
    /\ finalText s' +:+ partialText s' = "helloworhel"%string.
Proof.
  destruct (recorder_shows_accumulator MoreSamples.granting mirroring
              [TextFrame "{type:'ping'}";
               TextFrame "{type:'transcription.delta',delta:'hel'}"]
              recording Samples.connected eq_refl)
    as (s' & Href & _ & _ & _ & Hshown).
  exists s'. split; [exact Href|]. split; [apply Hshown; discriminate|].
  vm_compute in Href. by injection Href as <-.
Defined.

Lemma start_outcome_witness :
  start MoreSamples.granting mirroring true "42" idle = (Returned tt, idle)
  /\ exists result m',
      start Samples.refusing mirroring false "42" idle = (result, m')
      /\ isRecording (hooks m') = false
      /\ error (hooks m') = Some "Failed to parse SessionDescription."%string.
Proof.
  destruct (start_outcome MoreSamples.granting mirroring true "42" idle) as [Hoff _].
  split; [exact (Hoff eq_refl)|].
  destruct (start_outcome Samples.refusing mirroring false "42" idle) as [_ Hon].
  destruct (Hon eq_refl) as (result & m' & Hrun & _ & _ & Hres).
  exists result, m'. split; [exact Hrun|].
  vm_compute in Hrun. injection Hrun as <- <-. done.
Defined.

Lemma stop_releases_service_witness :
  exists m',
    stop mirroring recording = (Returned tt, m')
    /\ isRecording (hooks m') = false
    /\ live (log (world m')) = [].
Proof.
  destruct (stop_releases_service mirroring recording) as [Hopen _].
  destruct (Hopen Samples.connected eq_refl) as (w' & Hrun & _ & Hlive).
  eexists. split; [exact Hrun|]. split; [reflexivity|]. exact Hlive.
Defined.

End RecorderWitnesses.

(** ** Counting words *)

Section WordFacts.
Import Recorder.

Lemma splitWhiteSpace_counts (s : string) :
  forall (inRun : bool) (word : string),
    (inRun = true -> word = EmptyString) ->
    length (filter (fun w => (0 <? String.length w)%nat = true)
                   (splitWhiteSpace inRun word s))
    = wordsFrom (Js.truthy word) s.
Proof.
  induction s as [|c rest IH]; intros inRun word Hrun.
  - simpl. by destruct word.
  - simpl. destruct (Js.isWhiteSpace c) eqn:Hc.
    + destruct inRun.
      * rewrite (Hrun eq_refl). simpl. by apply IH.
      * destruct word as [|d word].
        -- rewrite filter_cons_False by (simpl; done). by apply IH.
        -- rewrite filter_cons_True by done. simpl. f_equal. by apply IH.
    + rewrite IH by done. by destruct word.
Qed.

Lemma wordCount_wordsFrom (s : string) : wordCount s = wordsFrom false s.
Proof. unfold wordCount. by rewrite splitWhiteSpace_counts. Qed.

Lemma wordsFrom_inside (s : string) : (0 < wordsFrom true s)%nat.
Proof.
  induction s as [|c rest IH]; simpl; [lia|].
  destruct (Js.isWhiteSpace c); [lia | exact IH].
Qed.

Lemma wordsFrom_zero (s : string) :
  wordsFrom false s = 0%nat <-> Js.trimStart s = EmptyString.
Proof.
  induction s as [|c rest IH]; simpl; [done|].
  destruct (Js.isWhiteSpace c); [exact IH|].
  split; [|discriminate]. pose proof (wordsFrom_inside rest). lia.
Qed.

Lemma wordsFrom_app (a b : string) (c : ascii) (inWord : bool) :
  Js.isWhiteSpace c = true ->
  wordsFrom inWord (a +:+ String c b) = (wordsFrom inWord a + wordsFrom false b)%nat.
Proof.
  intros Hc. revert inWord. induction a as [|d a IH]; intros inWord.
  - rewrite append_nil_l. simpl. by rewrite Hc.
  - rewrite append_cons. simpl. destruct (Js.isWhiteSpace d); rewrite IH; lia.
Qed.

(** X11: the word count is zero exactly on the transcripts that [trim]
    empties, so the header of the interview step shows a count exactly when
    the step bar counts the recording as data. *)
Theorem wordCount_zero_iff_blank (transcript : string) (a : Workflow.App) :
  (wordCount transcript = 0%nat <-> Js.trim transcript = EmptyString)
  /\ (0 <? wordCount (Workflow.realtimeTranscript a))%nat = Workflow.hasRecordingData a.
Proof.
  assert (Hzero : forall t, wordCount t = 0%nat <-> Js.trim t = EmptyString).
  { intros t. by rewrite wordCount_wordsFrom, wordsFrom_zero, trim_empty_iff. }
  split; [apply Hzero|]. unfold Workflow.hasRecordingData.
  destruct (Js.truthy (Js.trim (Workflow.realtimeTranscript a))) eqn:Ht.
  - apply Nat.ltb_lt. apply truthy_true in Ht.
    enough (wordCount (Workflow.realtimeTranscript a) <> 0%nat) by lia.
    intros Hw. by apply Hzero in Hw.
  - apply Nat.ltb_ge. apply truthy_false in Ht. apply Hzero in Ht. lia.
Qed.

Lemma wordCount_zero_iff_blank_witness :
  wordCount (String (ascii_of_nat 9) (String (ascii_of_nat 10) " ")) = 0%nat
  /\ (0 <? wordCount "Tell me about your last project.")%nat = true.
Proof.
  destruct (wordCount_zero_iff_blank
              (String (ascii_of_nat 9) (String (ascii_of_nat 10) " "))
              Samples.interviewing) as [[_ Hblank] Hdata].
  split; [exact (Hblank eq_refl) | exact Hdata].
Defined.

(** X12: an utterance appended to [finalText] adds its own words to the
    count and changes nothing else: the line feed between them is a
    separator, and no separator is put before the first utterance. *)
Theorem wordCount_appendUtterance (final utterance : string) :
  wordCount (Realtime.appendUtterance final utterance)
  = (wordCount final + wordCount utterance)%nat.
Proof.
  unfold Realtime.appendUtterance. destruct final as [|c final]; [reflexivity|].
  rewrite !wordCount_wordsFrom. cbn [Js.truthy]. unfold Js.LF.
  rewrite ?append_assoc.
  change (String (ascii_of_nat 10) EmptyString +:+ utterance)
    with (String (ascii_of_nat 10) utterance).
  by apply wordsFrom_app.
Qed.

End WordFacts.

(** ** The step bar and the action buttons *)

Section StepBarFacts.
Import Workflow StepBar.

Lemma flags_setActiveStep (v : SessionStep) (a : App) :
  hasDocsReady (setActiveStep v a) = hasDocsReady a
  /\ hasRecordingData (setActiveStep v a) = hasRecordingData a
  /\ hasFinalized (setActiveStep v a) = hasFinalized a.
Proof. done. Qed.

Lemma stepStatus_setActiveStep (v step : SessionStep) (a : App) :
  stepStatus step (setActiveStep v a) = stepStatus step a.
Proof. by destruct step. Qed.

(** X13: the step the auto-advance effect selects is never shown as
    upcoming, and neither is the step that is active after a click on the
    step bar that follows it: the first step is never upcoming, and a click
    on an upcoming step selects nothing. *)
Theorem active_step_is_reachable (a : App) (step : SessionStep) :
  stepStatus (activeStep (autoAdvance a)) (autoAdvance a) <> upcoming
  /\ stepStatus setup a <> upcoming
  /\ stepStatus (activeStep (clickStep step (autoAdvance a)))
                (clickStep step (autoAdvance a)) <> upcoming.
Proof.
  assert (Hauto : stepStatus (activeStep (autoAdvance a)) (autoAdvance a) <> upcoming).
  { unfold autoAdvance.
    destruct (hasFinalized a) eqn:Hf; [|destruct (hasRecordingData a) eqn:Hr;
                                         [|destruct (hasDocsReady a) eqn:Hd]];
      rewrite stepStatus_setActiveStep; simpl; rewrite ?Hf, ?Hr, ?Hd; done. }
  split; [exact Hauto|]. split.
  - simpl. by destruct (hasDocsReady a).
  - unfold clickStep.
    destruct (stepStatus step (autoAdvance a)) eqn:Hs;
      rewrite ?stepStatus_setActiveStep; simpl; rewrite ?Hs; done.
Qed.

(** X14: a click on an action button that was rendered enabled is never
    rejected by the cooldown check, the clock being monotone; when the
    click starts a request the buttons are disabled for as long as it is
    pending, and otherwise they stay as they were. *)
Theorem enabled_button_passes_cooldown
    (rendered now now' : Z) (button : ActionButton) (a : App) :
  actionDisabled rendered a = false ->
  rendered <= now ->
  match executeAction_begin now now' button a with
  | (_, Cooldown) => False
  | (a', Awaiting _) => forall t, actionDisabled t a' = true
  | (a', _) => forall t, actionDisabled t a' = actionDisabled t a
  end.
Proof.
  unfold actionDisabled, isCoolingDown. intros Henabled Hclock.
  apply orb_false_iff in Henabled as [_ Hcool]. apply Z.ltb_ge in Hcool.
  unfold executeAction_begin, executeAction_of. destruct (session a) as [s|]; [|done].
  destruct (Js.truthy (Js.trim (realtimeTranscript a))); simpl; [|done].
  destruct (now <? actionCooldownUntil a) eqn:Hnow; [apply Z.ltb_lt in Hnow; lia|].
  done.
Qed.

Lemma enabled_button_passes_cooldown_witness :
  exists a' request,
    executeAction_begin 1000 1001 Samples.next_question Samples.interviewing
    = (a', Awaiting request)
    /\ actionDisabled 5000 a' = true.
Proof.
  pose proof (enabled_button_passes_cooldown 900 1000 1001 Samples.next_question
                Samples.interviewing eq_refl ltac:(lia)) as Hclick.
  assert (Hrun : executeAction_begin 1000 1001 Samples.next_question Samples.interviewing
                 = (pending 1001 Samples.interviewing,
                    Awaiting {| request_session := 7;
                                action_button := Samples.next_question;
                                client_transcript := "Tell me about your last project." |}))
    by reflexivity.
  rewrite Hrun in Hclick. eexists _, _. split; [exact Hrun|]. apply Hclick.
Defined.

Lemma settled_fields (reply : ActionReply) (t : Z) (a : App) :
  session (executeAction_settle reply (pending t a)) = session a
  /\ realtimeTranscript (executeAction_settle reply (pending t a)) = realtimeTranscript a
  /\ actionCooldownUntil (executeAction_settle reply (pending t a))
     = t + ACTION_COOLDOWN_MS
  /\ resetTimers (executeAction_settle reply (pending t a))
     = resetTimers a ++ [t + ACTION_COOLDOWN_MS].
Proof. by destruct reply. Qed.

(** X15: a reset timer writes 0 over whatever deadline is stored when it
    fires.  When the timer of one accepted call fires only after a later
    call has been accepted, the cooldown of the later call ends there: a
    click made before the later deadline is accepted. *)
Theorem late_reset_timer_ends_later_cooldown
    (t1 t1' t2 t2' fired t3 t3' : Z) (button : ActionButton) (reply : ActionReply)
    (a : App) (s : InterviewSession) :
  session a = Some s ->
  Js.trim (realtimeTranscript a) <> EmptyString ->
  resetTimers a = [] ->
  actionCooldownUntil a <= t1 ->
  0 <= t1' ->
  t1' + ACTION_COOLDOWN_MS <= t2 ->
  t1' + ACTION_COOLDOWN_MS <= fired ->
  fired <= t3 ->
  t3 < t2' + ACTION_COOLDOWN_MS ->
  exists a1 a2 a3 request1 request2 request3,
    executeAction t1 t1' button reply a = (a1, Awaiting request1)
    /\ executeAction t2 t2' button reply a1 = (a2, Awaiting request2)
    /\ actionCooldownUntil a2 = t2' + ACTION_COOLDOWN_MS
    /\ resetTimerFires 0 fired a2 = Some a3
    /\ resetTimers a3 = [t2' + ACTION_COOLDOWN_MS]
    /\ executeAction_begin t3 t3' button a3 = (pending t3' a3, Awaiting request3).
Proof.
  intros Hs Hne Htimers Hopen Hepoch H2 Hfired H3 Hinside.
  destruct (settled_fields reply t1' a) as (Hs1 & Hr1 & Hd1 & Ht1).
  set (a1 := executeAction_settle reply (pending t1' a)) in *.
  destruct (settled_fields reply t2' a1) as (Hs2 & Hr2 & Hd2 & Ht2).
  set (a2 := executeAction_settle reply (pending t2' a1)) in *.
  rewrite Hs in Hs1. rewrite Hs1 in Hs2. rewrite <- Hr1 in Hne. rewrite <- Hr2 in Hne.
  rewrite Htimers in Ht1. rewrite Ht1 in Ht2. simpl app in Ht1, Ht2.
  assert (Hfire : resetTimerFires 0 fired a2
                  = Some (setResetTimers [t2' + ACTION_COOLDOWN_MS]
                            (setActionCooldownUntil 0 a2))).
  { unfold resetTimerFires. rewrite Ht2. simpl.
    apply Z.leb_le in Hfired. by rewrite Hfired. }
  eexists a1, a2, _, _, _, _.
  split. { unfold executeAction. rewrite (begin_accepted t1 t1' button a s Hs); try done.
           by rewrite <- Hr1, <- Hr2. }
  split. { unfold executeAction.
           rewrite (begin_accepted t2 t2' button a1 s Hs1); [reflexivity| |rewrite Hd1; lia].
           by rewrite <- Hr2. }
  split; [exact Hd2|]. split; [exact Hfire|]. split; [reflexivity|].
  apply (begin_accepted t3 t3' button _ s); [exact Hs2 | exact Hne | simpl].
  unfold ACTION_COOLDOWN_MS in *. lia.
Qed.

Lemma late_reset_timer_ends_later_cooldown_witness :
  exists a3 request,
    resetTimerFires 0 3100
      (executeAction 3050 3050 Samples.next_question (ReplyOutput None)
         (executeAction 1000 1000 Samples.next_question (ReplyOutput None)
            Samples.interviewing).1).1
    = Some a3
    /\ executeAction_begin 3200 3200 Samples.next_question a3
       = (pending 3200 a3, Awaiting request).
Proof.
  destruct (late_reset_timer_ends_later_cooldown 1000 1000 3050 3050 3100 3200 3200
              Samples.next_question (ReplyOutput None) Samples.interviewing
              Samples.session7 eq_refl ltac:(vm_compute; discriminate) eq_refl
              ltac:(simpl; lia) ltac:(lia) ltac:(vm_compute; discriminate)
              ltac:(vm_compute; discriminate) ltac:(lia) ltac:(reflexivity))
    as (a1 & a2 & a3 & r1 & r2 & r3 & H1 & H2 & _ & Hfire & _ & H3).
  rewrite H1. simpl. rewrite H2. simpl. by exists a3, r3.
Defined.

(** X16: after "Exit session" the step bar is back where it starts: the
    auto-advance effect keeps the step at setup, which is current, the
    other two steps are upcoming, no deadline is stored, and a call of
    [executeAction] returns at once for want of a session. *)
Theorem exitSession_resets_steps (a : App) (now now' : Z) (button : ActionButton) :
  autoAdvance (exitSession a) = exitSession a
  /\ activeStep (exitSession a) = setup
  /\ stepStatus setup (exitSession a) = current
  /\ stepStatus record (exitSession a) = upcoming
  /\ stepStatus finalize (exitSession a) = upcoming
  /\ actionCooldownUntil (exitSession a) = 0
  /\ executeAction_begin now now' button (exitSession a) = (exitSession a, NoSession).
Proof.
  assert (Hdocs : hasDocsReady (exitSession a) = false).
  { unfold hasDocsReady, hasSetup. simpl. by rewrite andb_false_r. }
  unfold autoAdvance, stepStatus. rewrite Hdocs. done.
Qed.

(** X17: [handleLogout] clears the user, the session and the live
    transcript but not the diarized transcript or the step: the documents
    are no longer ready and there is no recording data, so the auto-advance
    effect selects the report step when a diarized transcript is left and
    setup otherwise. *)
Theorem logout_keeps_report (a : App) :
  hasDocsReady (handleLogout a) = false
  /\ hasRecordingData (handleLogout a) = false
  /\ hasFinalized (handleLogout a) = hasFinalized a
  /\ activeStep (handleLogout a) = activeStep a
  /\ activeStep (autoAdvance (handleLogout a))
     = (if hasFinalized a then finalize else setup).
Proof.
  assert (Hdocs : hasDocsReady (handleLogout a) = false) by done.
  split; [exact Hdocs|]. split; [done|]. split; [done|]. split; [done|].
  unfold autoAdvance. rewrite Hdocs.
  change (hasFinalized (handleLogout a)) with (hasFinalized a).
  by destruct (hasFinalized a).
Qed.

End StepBarFacts.

(** ** Editing the action buttons *)

Section ButtonFacts.
Import Workflow Buttons.

Lemma filterFrom_above (l : list ActionButton) :
  forall k i, (i < k)%nat -> filterFrom (fun _ j => negb (j =? i)%nat) k l = l.
Proof.
  induction l as [|b l IH]; intros k i Hlt; [done|]. simpl.
  destruct (k =? i)%nat eqn:Heq; [apply Nat.eqb_eq in Heq; lia|].
  simpl. f_equal. apply IH. lia.
Qed.

Lemma filterFrom_delete (l : list ActionButton) :
  forall index i,
    filterFrom (fun _ j => negb (j =? i + index)%nat) i l = delete index l.
Proof.
  induction l as [|b l IH]; intros index i; [by destruct index|].
  simpl. destruct index as [|index].
  - rewrite Nat.add_0_r, Nat.eqb_refl. simpl. apply filterFrom_above. lia.
  - destruct (i =? i + S index)%nat eqn:Heq; [apply Nat.eqb_eq in Heq; lia|].
    simpl. f_equal. rewrite <- (IH index (S i)).
    by replace (i + S index)%nat with (S i + index)%nat by lia.
Qed.

Lemma removeActionButton_delete (index : nat) (l : list ActionButton) :
  removeActionButton index l = delete index l.
Proof. unfold removeActionButton. apply (filterFrom_delete l index 0%nat). Qed.

Lemma delete_past_end (l : list ActionButton) (i : nat) :
  (length l <= i)%nat -> delete i l = l.
Proof.
  intros Hout. rewrite delete_take_drop, take_ge, drop_ge by lia. apply app_nil_r.
Qed.

Lemma ids_update (index : nat) (field : Field) (value : string) (l : list ActionButton) :
  button_id <$> updateActionButton index field value l = button_id <$> l.
Proof.
  unfold updateActionButton. apply list_eq. intros j.
  rewrite !list_lookup_fmap, list_lookup_imap.
  destruct (l !! j) as [b|]; [|done]. simpl.
  destruct (j =? index)%nat; [by destruct field | done].
Qed.

Lemma custom_id_inj (now now' : Z) :
  "custom_" +:+ pretty now = "custom_" +:+ pretty now' -> now = now'.
Proof.
  rewrite !append_cons, !append_nil_l. intros Heq.
  injection Heq as Heq. by apply (inj pretty) in Heq.
Qed.

(** X18: [removeActionButton] deletes the entry at the index and keeps the
    others in order; an index past the end removes nothing; removing the
    last entry right after [addActionButton] gives back the list. *)
Theorem removeActionButton_deletes (index : nat) (now : Z) (prev : list ActionButton) :
  removeActionButton index prev = delete index prev
  /\ (length prev <= index -> removeActionButton index prev = prev)%nat
  /\ removeActionButton (length prev) (addActionButton now prev) = prev.
Proof.
  split; [apply removeActionButton_delete|]. split.
  - intros Hout. rewrite removeActionButton_delete. by apply delete_past_end.
  - rewrite removeActionButton_delete. unfold addActionButton. rewrite delete_middle. by rewrite app_nil_r.
Qed.

Lemma removeActionButton_deletes_witness :
  removeActionButton 5 two_buttons = two_buttons
  /\ removeActionButton 0 two_buttons = [probe_deeper].
Proof.
  destruct (removeActionButton_deletes 5 0 two_buttons) as (_ & Hout & _).
  split; [apply Hout; simpl; lia|].
  destruct (removeActionButton_deletes 0 0 two_buttons) as (-> & _ & _). reflexivity.
Defined.

(** X19: [updateActionButton] changes the one field of the one entry: the
    ids and the order of the buttons stay, every other entry stays, and an
    index past the end changes nothing. *)
Theorem updateActionButton_one_field
    (index : nat) (field : Field) (value : string) (prev : list ActionButton) :
  button_id <$> updateActionButton index field value prev = button_id <$> prev
  /\ updateActionButton index field value prev !! index
     = setField field value <$> prev !! index
  /\ (forall j, j <> index ->
        updateActionButton index field value prev !! j = prev !! j)
  /\ ((length prev <= index)%nat -> updateActionButton index field value prev = prev).
Proof.
  split; [apply ids_update|]. unfold updateActionButton.
  assert (Hother : forall j, j <> index ->
            imap (fun i btn => if (i =? index)%nat then setField field value btn else btn)
                 prev !! j = prev !! j).
  { intros j Hj. rewrite list_lookup_imap. destruct (prev !! j); [|done]. simpl.
    apply Nat.eqb_neq in Hj. by rewrite Hj. }
  split; [|split; [exact Hother|]].
  - rewrite list_lookup_imap. destruct (prev !! index); [|done]. simpl.
    by rewrite Nat.eqb_refl.
  - intros Hout. apply list_eq. intros j.
    destruct (decide (j = index)) as [->|Hj]; [|by apply Hother].
    rewrite list_lookup_imap. by rewrite (lookup_ge_None_2 prev index Hout).
Qed.

Lemma updateActionButton_one_field_witness :
  updateActionButton 1 Label "Dig in" two_buttons !! 0%nat = Some Samples.next_question
  /\ updateActionButton 7 Prompt "Anything" two_buttons = two_buttons.
Proof.
  destruct (updateActionButton_one_field 1 Label "Dig in" two_buttons)
    as (_ & _ & Hother & _).
  destruct (updateActionButton_one_field 7 Prompt "Anything" two_buttons)
    as (_ & _ & _ & Hout).
  split; [exact (Hother 0%nat ltac:(lia)) | apply Hout; simpl; lia].
Defined.

Lemma edit_nonempty (l : list ActionButton) (e : Edit) : l <> [] -> edit l e <> [].
Proof.
  intros Hl. destruct e as [index field value|now|index]; simpl.
  - intros Hnil. apply Hl. apply (f_equal length) in Hnil.
    unfold updateActionButton in Hnil. rewrite length_imap in Hnil.
    by destruct l.
  - unfold addActionButton. by destruct l.
  - unfold removeDisabled. destruct (length l <=? 1)%nat eqn:Hlen; [done|].
    apply Nat.leb_gt in Hlen. intros Hnil. apply (f_equal length) in Hnil.
    rewrite removeActionButton_delete in Hnil.
    destruct (decide (index < length l)%nat) as [Hin|Hout].
    + rewrite length_delete in Hnil by (by apply lookup_lt_is_Some_2). simpl in Hnil. lia.
    + rewrite delete_past_end in Hnil by lia. simpl in Hnil. lia.
Qed.

(** X20: through the editor of the setup panel the list of action buttons
    never becomes empty, and the ids of the buttons, which are their React
    keys, stay distinct as long as the clock reads a later time at every
    further "Add action" and none of the new ids is in use already. *)
Theorem editor_keeps_buttons (edits : list Edit) (actionButtons : list ActionButton) :
  actionButtons <> [] ->
  NoDup (button_id <$> actionButtons) ->
  StronglySorted Z.lt (stamps edits) ->
  (forall now, now ∈ stamps edits ->
               "custom_" +:+ pretty now ∉ button_id <$> actionButtons) ->
  fold_left edit edits actionButtons <> []
  /\ NoDup (button_id <$> fold_left edit edits actionButtons).
Proof.
  revert actionButtons.
  induction edits as [|e edits IH]; intros l Hl Hdup Hsorted Hfresh; [done|].
  simpl. apply IH.
  - by apply edit_nonempty.
  - destruct e as [index field value|now|index]; simpl.
    + by rewrite ids_update.
    + unfold addActionButton. rewrite fmap_app. simpl.
      apply NoDup_app. split; [exact Hdup|]. split; [|apply NoDup_singleton].
      intros id Hid Hnew. apply list_elem_of_singleton in Hnew. subst id.
      apply (Hfresh now); [|exact Hid]. simpl. left.
    + destruct (removeDisabled l); [exact Hdup|].
      rewrite removeActionButton_delete.
      eapply sublist_NoDup; [exact Hdup|]. apply fmap_sublist, sublist_delete.
  - destruct e; simpl in *; [done| |done]. by inversion Hsorted.
  - intros now Hnow. destruct e as [index field value|stamp|index]; simpl in *.
    + rewrite ids_update. by apply Hfresh.
    + unfold addActionButton. rewrite fmap_app. simpl.
      intros Hin. apply elem_of_app in Hin as [Hin|Hin].
      * apply (Hfresh now); [by right|exact Hin].
      * apply list_elem_of_singleton in Hin. apply custom_id_inj in Hin. subst stamp.
        inversion Hsorted as [|? ? _ Hall]; subst.
        rewrite Forall_forall in Hall. specialize (Hall _ Hnow). lia.
    + destruct (removeDisabled l); [by apply Hfresh|].
      rewrite removeActionButton_delete.
      intros Hin. apply (Hfresh now Hnow).
      eapply elem_of_sublist; [exact Hin|]. apply fmap_sublist, sublist_delete.
Qed.

Lemma editor_keeps_buttons_witness :
  NoDup (button_id <$>
           fold_left edit [Remove 0; Remove 0; Add 1700000000000; Change 1 Label "Mine";
                           Add 1700000000001] two_buttons).
Proof.
  apply (editor_keeps_buttons
           [Remove 0; Remove 0; Add 1700000000000; Change 1 Label "Mine";
            Add 1700000000001] two_buttons).
  - discriminate.
  - apply (bool_decide_eq_true_1 _). by vm_compute.
  - simpl. repeat constructor.
  - simpl. intros now Hnow.
    apply elem_of_cons in Hnow as [->|Hnow];
      [|apply list_elem_of_singleton in Hnow; subst now];
      vm_compute; intros Hin;
      repeat (apply elem_of_cons in Hin as [Hin|Hin]; [discriminate Hin|]);
      by apply elem_of_nil in Hin.
Defined.

End ButtonFacts.

(** ** Asking questions *)

Section RagFacts.
Import Workflow Citations Rag.

Lemma trimEnd_idem (t : string) : Js.trimEnd (Js.trimEnd t) = Js.trimEnd t.
Proof.
  induction t as [|c rest IH]; [done|]. simpl.
  destruct (Js.trimEnd rest) as [|k kept] eqn:Hrest.
  - destruct (Js.isWhiteSpace c) eqn:Hc; [done|]. simpl. by rewrite Hc.
  - change (Js.trimEnd (String c (String k kept)))
      with (match Js.trimEnd (String k kept) with
            | EmptyString =>
                if Js.isWhiteSpace c then EmptyString else String c EmptyString
            | kept' => String c kept'
            end).
    by rewrite IH.
Qed.

Lemma trimEnd_head (c : ascii) (rest : string) :
  Js.isWhiteSpace c = false -> exists kept, Js.trimEnd (String c rest) = String c kept.
Proof.
  intros Hc. simpl. rewrite Hc. destruct (Js.trimEnd rest) as [|k kept].
  - by exists EmptyString.
  - by exists (String k kept).
Qed.

Lemma trim_idem (s : string) : Js.trim (Js.trim s) = Js.trim s.
Proof.
  unfold Js.trim. destruct (trimStart_head s) as [->|(c & rest & -> & Hc)]; [done|].
  destruct (trimEnd_head c rest Hc) as [kept Hkept].
  rewrite <- (trimEnd_idem (String c rest)) at 2. f_equal.
  rewrite Hkept. simpl. by rewrite Hc.
Qed.

(** X21: a click on an enabled Ask button, with a session open, sends the
    question without the white space around it, which is then not empty;
    it clears the error and disables the button while the request is
    pending.  Without a session, or with a question that [trim] empties,
    nothing is sent and nothing changes. *)
Theorem enabled_ask_sends_trimmed (s : InterviewSession) (r : Rag) :
  (askDisabled r = false ->
   exists request,
     handleRagAsk_begin (Some s) r
     = (setRagError None (setRagLoading true r), Some request)
     /\ chat_session request = session_id s
     /\ question request = Js.trim (ragQuestion r)
     /\ question request <> EmptyString
     /\ Js.trim (question request) = question request
     /\ askDisabled (setRagError None (setRagLoading true r)) = true)
  /\ (Js.trim (ragQuestion r) = EmptyString -> handleRagAsk_begin (Some s) r = (r, None))
  /\ handleRagAsk_begin None r = (r, None).
Proof.
  unfold askDisabled, handleRagAsk_begin. split; [|split; [by intros ->|done]].
  intros Henabled. apply orb_false_iff in Henabled as [_ Hq].
  apply negb_false_iff in Hq. rewrite Hq. simpl. eexists. split; [reflexivity|]. simpl.
  split; [done|]. split; [done|]. split; [by apply truthy_true|].
  split; [apply trim_idem | done].
Qed.

Lemma enabled_ask_sends_trimmed_witness :
  exists r',
    handleRagAsk_begin (Some Samples.session7) answered
    = (r', Some {| chat_session := 7; question := "Any gaps?" |})
    /\ askDisabled r' = true.
Proof.
  destruct (enabled_ask_sends_trimmed Samples.session7 answered) as [Hask _].
  destruct (Hask eq_refl) as ([sid q] & Hrun & Hsid & Hq & _ & _ & Hoff).
  simpl in Hsid, Hq. subst sid q.
  eexists. split; [exact Hrun | exact Hoff].
Defined.

(** X22: a whole call of [handleRagAsk] from an enabled Ask button.  When
    the request fails, the answer and the sources of the previous question
    stay on display next to the error, which is the detail of the failure
    or the default text; when it succeeds, the error is cleared and the
    answer and the citations are replaced, by the empty ones where the
    reply has none, so that no source is listed then.  Either way the
    question is kept and the loading flag ends cleared. *)
Theorem handleRagAsk_outcome (s : InterviewSession) (reply : ChatReply) (r : Rag) :
  askDisabled r = false ->
  exists r' request,
    handleRagAsk (Some s) reply r = (r', Some request)
    /\ ragQuestion r' = ragQuestion r
    /\ ragLoading r' = false
    /\ match reply with
       | ChatFailure detail =>
           ragAnswer r' = ragAnswer r
           /\ sources r' = sources r
           /\ ragError r' = Some (Js.or_lit detail "RAG chat failed")
       | ChatOutput answer citations =>
           ragAnswer r' = Js.or_lit answer ""
           /\ ragCitations r' = default [] citations
           /\ ragError r' = None
           /\ (citations = None -> sources r' = [])
       end.
Proof.
  unfold askDisabled, handleRagAsk, handleRagAsk_begin. intros Henabled.
  apply orb_false_iff in Henabled as [_ Hq]. apply negb_false_iff in Hq.
  rewrite Hq. simpl. eexists _, _. split; [reflexivity|].
  destruct reply as [answer citations|detail]; simpl; [|done].
  repeat split. by intros ->.
Qed.

Lemma handleRagAsk_outcome_witness :
  exists r' request,
    handleRagAsk (Some Samples.session7) (ChatFailure None) answered = (r', Some request)
    /\ ragAnswer r' = "Five years of Go [1]."%string
    /\ ragError r' = Some "RAG chat failed"%string
    /\ sources r' = sources answered.
Proof.
  destruct (handleRagAsk_outcome Samples.session7 (ChatFailure None) answered eq_refl)
    as (r' & request & Hrun & _ & _ & Hanswer & Hsources & Herror).
  by exists r', request.
Defined.

End RagFacts.

(** ** Persisting utterances *)

Section PersistFacts.
Import Realtime Workflow Recorder Persist.

Lemma onmessages_emitted (env : Env) (frames : list Frame) :
  forall (s : Service) (w : World),
  exists s' l,
    onmessages env frames s w = (Returned tt, s', mkWorld (nextHandle w) (log w ++ l))
    /\ emissions l = emitted (finalText s) (partialText s) (eventsOf env frames).
Proof.
  induction frames as [|raw frames IH]; intros s w.
  - exists s, []. rewrite app_nil_r. split; [by destruct w|done].
  - rewrite onmessages_cons, onmessage_run, eventsOf_cons.
    destruct (messageOf env raw) as [message|]; simpl;
      [rewrite handleMessage_eventOf; destruct (eventOf message) as [[t|t]|]; simpl|].
    + destruct (IH (set_partialText (partialText s +:+ t) s)
                  (mkWorld (nextHandle w)
                     ((log w ++ decoding env raw)
                        ++ [Callback (OnTranscript (finalText s +:+ (partialText s +:+ t))
                                                   false)])))
        as (s' & l & Hrun & Hem).
      eexists s', (decoding env raw ++ [_] ++ l). simpl in Hrun.
      rewrite Hrun, !app_assoc. split; [reflexivity|].
      rewrite !emissions_app, emissions_decoding, Hem. reflexivity.
    + destruct (IH (set_partialText "" (set_finalText (appendUtterance (finalText s) t) s))
                  (mkWorld (nextHandle w)
                     ((log w ++ decoding env raw)
                        ++ [Callback (OnFinalUtterance t);
                            Callback (OnTranscript (appendUtterance (finalText s) t)
                                                   true)])))
        as (s' & l & Hrun & Hem).
      eexists s', (decoding env raw ++ [_; _] ++ l). simpl in Hrun.
      rewrite Hrun, !app_assoc. split; [reflexivity|].
      rewrite !emissions_app, emissions_decoding, Hem. reflexivity.
    + destruct (IH s (mkWorld (nextHandle w) (log w ++ decoding env raw)))
        as (s' & l & Hrun & Hem).
      exists s', (decoding env raw ++ l). simpl in Hrun.
      rewrite Hrun, app_assoc. split; [reflexivity|].
      by rewrite emissions_app, emissions_decoding, Hem.
    + destruct (IH s (mkWorld (nextHandle w) (log w ++ decoding env raw)))
        as (s' & l & Hrun & Hem).
      exists s', (decoding env raw ++ l). simpl in Hrun.
      rewrite Hrun, app_assoc. split; [reflexivity|].
      by rewrite emissions_app, emissions_decoding, Hem.
Qed.

Lemma finals_cons (e : TranscriptEvent) (events : list TranscriptEvent) :
  finals (e :: events)
  = match e with
    | FinalUtterance t => t :: finals events
    | PartialDelta _ => finals events
    end.
Proof. by destruct e. Qed.

Lemma wired_kept (session : option InterviewSession) (events : list TranscriptEvent) :
  forall (final partial : string) (r : Recorder) (k : Kept),
    sent (fold_left (receive (wired session)) (emitted final partial events) (r, k)).2
    = sent k ++ omap (persistFinalUtterance session) (finals events)
    /\ (events <> [] ->
        liveTranscript
          (fold_left (receive (wired session)) (emitted final partial events) (r, k)).2
        = transcript
            (fold_left (receive (wired session)) (emitted final partial events) (r, k)).1).
Proof.
  induction events as [|e events IH]; intros final partial r k.
  - simpl. by rewrite app_nil_r.
  - rewrite finals_cons. destruct e as [t|t]; simpl.
    + destruct (IH final (partial +:+ t) (setTranscript (final +:+ (partial +:+ t)) r)
                  (onTranscriptUpdate_app (final +:+ (partial +:+ t)) false k))
        as [Hsent Hlive].
      split; [exact Hsent|]. intros _. destruct events as [|e events]; [done|].
      by apply Hlive.
    + destruct (IH (appendUtterance final t) EmptyString
                  (setTranscript (appendUtterance final t) r)
                  (onTranscriptUpdate_app (appendUtterance final t) true
                     (onFinalUtterance_app session t k)))
        as [Hsent Hlive].
      split.
      * rewrite Hsent. simpl. rewrite <- app_assoc. f_equal.
        by destruct (persistFinalUtterance session t).
      * intros _. destruct events as [|e events]; [done|]. by apply Hlive.
Qed.

Lemma persisted_filter (s : InterviewSession) (utterances : list string) :
  omap (persistFinalUtterance (Some s)) utterances
  = (fun u => {| update_session := session_id s; final_utterance := u |})
      <$> List.filter (fun u => Js.truthy (Js.trim u)) utterances.
Proof.
  induction utterances as [|u us IH]; [done|].
  change (omap (persistFinalUtterance (Some s)) (u :: us))
    with (match persistFinalUtterance (Some s) u with
          | Some request => request :: omap (persistFinalUtterance (Some s)) us
          | None => omap (persistFinalUtterance (Some s)) us
          end).
  change (List.filter (fun u => Js.truthy (Js.trim u)) (u :: us))
    with (if Js.truthy (Js.trim u)
          then u :: List.filter (fun u => Js.truthy (Js.trim u)) us
          else List.filter (fun u => Js.truthy (Js.trim u)) us).
  unfold persistFinalUtterance at 1. rewrite IH.
  by destruct (Js.truthy (Js.trim u)).
Qed.

(** X23: while frames arrive, [App] sends one request to the transcript
    endpoint for every utterance the service notifies that [trim] does not
    empty, in the order of arrival and with the text as notified; an
    utterance of white space only is notified and shown but not sent;
    and once an event has arrived, the live transcript [App] keeps is the
    transcript the recorder displays. *)
Theorem utterances_persisted_in_order
    (env : Env) (session : InterviewSession) (frames : list Frame)
    (m : Mounted Kept) (s : Service) :
  serviceRef m = Some s ->
  sent (parent (arrive env (wired (Some session)) frames m))
  = sent (parent m)
    ++ ((fun u => {| update_session := session_id session; final_utterance := u |})
          <$> List.filter (fun u => Js.truthy (Js.trim u)) (finals (eventsOf env frames)))
  /\ (eventsOf env frames <> [] ->
      liveTranscript (parent (arrive env (wired (Some session)) frames m))
      = transcript (hooks (arrive env (wired (Some session)) frames m))).
Proof.
  intros Href. unfold arrive. rewrite Href.
  destruct (onmessages_emitted env frames s (world m)) as (s' & l & Hrun & Hem).
  rewrite Hrun, since_app. simpl. unfold deliver. rewrite Hem.
  destruct (wired_kept (Some session) (eventsOf env frames)
              (finalText s) (partialText s) (hooks m) (parent m)) as [Hsent Hlive].
  split; [|exact Hlive]. by rewrite Hsent, persisted_filter.
Qed.

Lemma utterances_persisted_in_order_witness :
  sent (parent (arrive hearing (wired (Some Samples.session7))
                  [TextFrame "{type:'transcription.completed',transcript:' '}";
                   TextFrame "{type:'transcription.completed',transcript:'hello'}"]
                  keeping))
  = [ {| update_session := 7; final_utterance := "hello" |} ].
Proof.
  destruct (utterances_persisted_in_order hearing Samples.session7
              [TextFrame "{type:'transcription.completed',transcript:' '}";
               TextFrame "{type:'transcription.completed',transcript:'hello'}"]
              keeping Samples.connected eq_refl) as [-> _].
  reflexivity.
Defined.

End PersistFacts.

(** ** More on the citation list *)

Section MoreCitationFacts.
Import Citations.

Lemma digitValue_bounds (c : ascii) : isDigit c = true -> 0 <= digitValue c <= 9.
Proof.
  unfold isDigit, digitValue. intros Hc.
  apply andb_true_iff in Hc as [Hlo Hhi].
  apply Nat.leb_le in Hlo, Hhi. lia.
Qed.

Lemma numberFrom_nonneg (ds : string) :
  forall acc, 0 <= acc -> allDigits ds = true -> acc <= numberFrom acc ds.
Proof.
  induction ds as [|c ds IH]; intros acc Hacc Hall; simpl; [lia|].
  simpl in Hall. apply andb_true_iff in Hall as [Hc Hall].
  pose proof (digitValue_bounds c Hc).
  pose proof (IH (acc * 10 + digitValue c) ltac:(lia) Hall). lia.
Qed.

Lemma withIndex_lookup (ragCitations : list RagCitation) (i : nat) (d : Displayed) :
  withIndex ragCitations !! i = Some d ->
  exists c, ragCitations !! i = Some c
            /\ d = {| citation := c;
                      _displayIndex := default (Z.of_nat i + 1) (index c) |}.
Proof.
  unfold withIndex. rewrite list_lookup_imap.
  destruct (ragCitations !! i) as [c|]; [|done]. intros [= <-]. by exists c.
Qed.

Lemma filtered_sublist (ragAnswer : string) (ragCitations : list RagCitation) :
  filtered ragAnswer ragCitations `sublist_of` withIndex ragCitations.
Proof.
  unfold filtered. destruct (bool_decide _); [apply sublist_filter | done].
Qed.

(** X24: a marker never cites a negative number, so a citation whose own
    index is negative is listed only when the answer has no marker at
    all; a marker written with leading zeros cites the same number as
    without them. *)
Theorem cited_is_natural
    (ragAnswer ds : string) (ragCitations : list RagCitation) (d : Displayed) :
  (forall n, Finite n ∈ cited ragAnswer -> 0 <= n)
  /\ (d ∈ filtered ragAnswer ragCitations -> _displayIndex d < 0 ->
      cited ragAnswer = ∅ /\ filtered ragAnswer ragCitations = withIndex ragCitations)
  /\ Number ("0" +:+ ds) = Number ds.
Proof.
  assert (Hnat : forall n, Finite n ∈ cited ragAnswer -> 0 <= n).
  { intros n Hn. apply cited_markers in Hn as (digits & (_ & Hall & _) & Hnum).
    pose proof (numberFrom_nonneg digits 0 ltac:(lia) Hall) as Hexact.
    unfold Number, exactValue in Hnum.
    destruct (Z.le_gt_cases (2 ^ 53) (numberFrom 0 digits)) as [Hbig|Hsmall].
    - destruct (toDouble_rounds _ Hbig) as [Hinf|(value & Hvalue & Hge & _)].
      + rewrite Hinf in Hnum. discriminate Hnum.
      + rewrite Hvalue in Hnum. injection Hnum as ->. lia.
    - rewrite toDouble_exact in Hnum by lia. injection Hnum as <-. exact Hexact. }
  split; [exact Hnat|]. split; [|reflexivity].
  unfold filtered. intros Hin Hneg.
  destruct (bool_decide (size (cited ragAnswer) ≠ 0%nat)) eqn:Hsize.
  - apply list_elem_of_filter in Hin as [Hcited _]. apply Hnat in Hcited. lia.
  - apply bool_decide_eq_false in Hsize. split; [|reflexivity].
    apply leibniz_equiv, size_empty_inv. by apply dec_stable in Hsize.
Qed.

Lemma cited_is_natural_witness :
  Number "007" = Finite 7
  /\ forall n, Finite n ∈ cited "Five years of Go [1], since 2019 [02]." -> 0 <= n.
Proof.
  destruct (cited_is_natural "Five years of Go [1], since 2019 [02]." "07"
              Samples.retrieved
              {| citation := Samples.chunk "JD" "Five years of Go."; _displayIndex := 1 |})
    as (Hnat & _ & Hzero).
  split; [exact (eq_trans Hzero eq_refl) | exact Hnat].
Defined.

Lemma positions_of_withIndex (ragCitations : list RagCitation) :
  Forall (fun c => index c = None) ragCitations ->
  _displayIndex <$> withIndex ragCitations
  = (fun i => Z.of_nat i + 1) <$> seq 0 (length ragCitations).
Proof.
  intros Hnone. apply list_eq. intros i.
  unfold withIndex. rewrite !list_lookup_fmap, list_lookup_imap.
  destruct (ragCitations !! i) as [c|] eqn:Hc; simpl.
  - rewrite lookup_seq_lt by (by eapply lookup_lt_Some). simpl.
    rewrite Forall_forall in Hnone.
    by rewrite (Hnone c (list_elem_of_lookup_2 _ _ _ Hc)).
  - apply lookup_ge_None in Hc. by rewrite lookup_seq_ge by lia.
Qed.

(** X25: the list under "Sources" is taken from the indexed citations in
    their order, never longer than them.  When no citation has an index of
    its own, the display indexes are the positions 1, 2, ... and so differ
    from one entry to the next; an answer whose markers all cite 0 or a
    number past the end of the list then leaves the list empty. *)
Theorem sources_by_position (ragAnswer : string) (ragCitations : list RagCitation) :
  filtered ragAnswer ragCitations `sublist_of` withIndex ragCitations
  /\ (length (filtered ragAnswer ragCitations) <= length ragCitations)%nat
  /\ (Forall (fun c => index c = None) ragCitations ->
      _displayIndex <$> withIndex ragCitations
      = (fun i => Z.of_nat i + 1) <$> seq 0 (length ragCitations)
      /\ NoDup (_displayIndex <$> filtered ragAnswer ragCitations)
      /\ (cited ragAnswer <> ∅ ->
          (forall n, Finite n ∈ cited ragAnswer ->
                     n = 0 \/ Z.of_nat (length ragCitations) < n) ->
          filtered ragAnswer ragCitations = [])).
Proof.
  pose proof (filtered_sublist ragAnswer ragCitations) as Hsub.
  split; [exact Hsub|]. split.
  - apply sublist_length in Hsub. unfold withIndex in Hsub.
    by rewrite length_imap in Hsub.
  - intros Hnone. pose proof (positions_of_withIndex ragCitations Hnone) as Hpos.
    split; [exact Hpos|]. split.
    + eapply sublist_NoDup; [|apply fmap_sublist, Hsub]. rewrite Hpos.
      apply NoDup_fmap_2; [|apply NoDup_seq]. intros i j Hij. lia.
    + intros Hsome Hpast. unfold filtered.
      rewrite bool_decide_eq_true_2
        by (intros Hsize; apply Hsome, leibniz_equiv, size_empty_inv, Hsize).
      apply filter_none. apply Forall_forall. intros d Hd Hcited.
      apply list_elem_of_lookup in Hd as [i Hi].
      apply withIndex_lookup in Hi as (c & Hc & ->). simpl in Hcited.
      rewrite Forall_forall in Hnone.
      rewrite (Hnone c (list_elem_of_lookup_2 _ _ _ Hc)) in Hcited. simpl in Hcited.
      apply lookup_lt_Some in Hc. destruct (Hpast _ Hcited); lia.
Qed.

Lemma sources_by_position_witness :
  filtered "Strong on Go [7]." Samples.retrieved = []
  /\ _displayIndex <$> withIndex Samples.retrieved = [1; 2; 3].
Proof.
  destruct (sources_by_position "Strong on Go [7]." Samples.retrieved)
    as (_ & _ & Hpos).
  destruct (Hpos ltac:(repeat constructor)) as (Hidx & _ & Hnone).
  split; [|exact Hidx]. apply Hnone.
  - intros Hempty.
    assert (Hin : Finite 7 ∈ cited "Strong on Go [7].") by (by vm_compute).
    rewrite Hempty in Hin. by apply elem_of_empty in Hin.
  - intros n Hn. right.
    assert (Hn7 : n = 7); [|subst n; simpl; lia].
    unfold cited in Hn. apply elem_of_list_to_set in Hn.
    vm_compute in Hn. apply list_elem_of_singleton in Hn. by injection Hn.
Defined.

End MoreCitationFacts.

(** ** The greeting *)

Section WelcomeFacts.
Import Welcome.

Lemma firstPiece_splits (sep : ascii) (s : string) :
  s = firstPiece sep s
  \/ exists rest, s = firstPiece sep s +:+ String sep rest.
Proof.
  induction s as [|c s IH]; [by left|]. simpl.
  destruct (Ascii.eqb c sep) eqn:Hc.
  - apply Ascii.eqb_eq in Hc as ->. right. exists s. by rewrite append_nil_l.
  - destruct IH as [IH|[rest IH]].
    + left. by rewrite <- IH.
    + right. exists rest. rewrite append_cons. by rewrite <- IH.
Qed.

Lemma firstPiece_free (sep : ascii) (s pre post : string) :
  firstPiece sep s <> pre +:+ String sep post.
Proof.
  revert pre. induction s as [|c s IH]; intros pre; simpl.
  - by destruct pre.
  - destruct (Ascii.eqb c sep) eqn:Hc; [by destruct pre|].
    destruct pre as [|p pre].
    + rewrite append_nil_l. intros [= -> _]. by rewrite Ascii.eqb_refl in Hc.
    + rewrite append_cons. intros [= _ Hrest]. by apply IH in Hrest.
Qed.

(** X27: the greeting names the user by what stands before the first [@]
    of the user name: that piece has no [@] in it, and the user name is
    the piece alone or the piece, an [@] and a rest; an absent or empty
    user name gives the plain greeting. *)
Theorem greeting_names_local_part (userName : string) :
  (userName <> EmptyString ->
   exists name,
     greeting (Some userName) = "Welcome back, " +:+ name
     /\ (forall pre post, name <> pre +:+ String "@" post)
     /\ (userName = name \/ exists rest, userName = name +:+ String "@" rest))
  /\ greeting (Some EmptyString) = "Welcome"%string
  /\ greeting None = "Welcome"%string.
Proof.
  split; [|done]. intros Hname. apply truthy_true in Hname.
  exists (firstPiece "@" userName). unfold greeting. rewrite Hname.
  split; [reflexivity|]. split; [apply firstPiece_free | apply firstPiece_splits].
Qed.

Lemma greeting_names_local_part_witness :
  exists name,
    greeting (Some "recruiter@example.org"%string) = "Welcome back, " +:+ name
    /\ ("recruiter@example.org"%string = name
        \/ exists rest, "recruiter@example.org"%string = name +:+ String "@" rest).
Proof.
  destruct (greeting_names_local_part "recruiter@example.org") as [Hnamed _].
  destruct (Hnamed ltac:(discriminate)) as (name & Hgreet & _ & Hsplit).
  by exists name.
Defined.

End WelcomeFacts.
